(** * Web-Scraper: the job scraper of [Mag10-11-25.py]

    A shallow embedding of the scraper's pure code (text utilities, content
    formatter, job record extractor, link collector) and of the control flow
    of its orchestrator, with the properties of its specification.

    Conventions of the embedding.
    - Python [str] values are [text], lists of characters.  A character is a
      code point below 256; [isspace], [isupper], [lower_char] and [is_word]
      follow CPython's [str.isspace], [str.isupper], [str.lower] and the
      [re] module's [\w] on that range.  A property stated over [text] is
      therefore a property of the program on strings of such code points
      only.  Where the wider range matters, the statement says so: the
      slug is also given over any type of characters ([Slug]), with an
      alphabet that has uppercase letters which [str.lower] does not
      change ([Wide]).
    - The literals of the source that hold code points beyond 255 (the
      bullet marker and the glyphs before the labels) are kept as the bytes
      of their UTF-8 encoding, one character per byte; see [BULLET].
    - A parsed page is a [node] tree, as BeautifulSoup builds it: strings
      and tags with a name, attributes and contents.  The queries of the
      markup library the program calls ([find], [find_all], [find_next],
      [select], [get_text]) are functions over that tree.  [Comment]
      stands for every string that [get_text] leaves out; see [node].
    - A call that can raise returns a [result]; so does opening the output
      file, which is a field of the [world] a run is given. *)

From Stdlib Require Import String Ascii Bool Arith Lia List.
Import ListNotations.

Set Implicit Arguments.

(** ** Python strings *)

Definition text := list ascii.

Coercion list_ascii_of_string : string >-> list.

Module Py.

Local Open Scope string_scope.
Local Open Scope list_scope.
Local Open Scope nat_scope.

Definition code (c : ascii) : nat := nat_of_ascii c.

Definition between (lo hi n : nat) : bool := (lo <=? n) && (n <=? hi).

(** [str.isspace] of one character. *)
Definition isspace (c : ascii) : bool :=
  let n := code c in
  between 9 13 n || between 28 32 n || (n =? 133) || (n =? 160).

(** [str.isupper] of one character. *)
Definition isupper (c : ascii) : bool :=
  let n := code c in
  between 65 90 n || between 192 214 n || between 216 222 n.

(** [str.lower] of one character. *)
Definition lower_char (c : ascii) : ascii :=
  if isupper c then ascii_of_nat (code c + 32) else c.

(** [str.isalnum] of one character. *)
Definition isalnum (c : ascii) : bool :=
  let n := code c in
  between 48 57 n || between 65 90 n || between 97 122 n
  || (n =? 170) || (n =? 178) || (n =? 179) || (n =? 181) || (n =? 185)
  || (n =? 186) || between 188 190 n || between 192 214 n
  || between 216 246 n || between 248 255 n.

(** The class [\w] of the [re] module. *)
Definition is_word (c : ascii) : bool := isalnum c || (code c =? 95).

Definition lower (s : text) : text := map lower_char s.

Fixpoint text_eqb (a b : text) : bool :=
  match a, b with
  | [], [] => true
  | x :: a', y :: b' => Ascii.eqb x y && text_eqb a' b'
  | _, _ => false
  end.

(** Truth value of a [str]: non-empty. *)
Definition truthy (s : text) : bool :=
  match s with [] => false | _ :: _ => true end.

Fixpoint lstrip (s : text) : text :=
  match s with
  | [] => []
  | c :: s' => if isspace c then lstrip s' else s
  end.

Fixpoint rstrip (s : text) : text :=
  match s with
  | [] => []
  | c :: s' =>
      match rstrip s' with
      | [] => if isspace c then [] else [c]
      | (_ :: _) as r => c :: r
      end
  end.

(** [s.strip()] *)
Definition strip (s : text) : text := rstrip (lstrip s).

(** [s.startswith(p)] *)
Fixpoint startswith (p s : text) : bool :=
  match p, s with
  | [], _ => true
  | a :: p', b :: s' => Ascii.eqb a b && startswith p' s'
  | _ :: _, [] => false
  end.

(** [s.find(sub)]: the index of the leftmost occurrence. *)
Fixpoint find (sub s : text) {struct s} : option nat :=
  if startswith sub s then Some 0
  else match s with
       | [] => None
       | _ :: s' => option_map S (find sub s')
       end.

(** [sub in s] *)
Definition contains (sub s : text) : bool :=
  match find sub s with Some _ => true | None => false end.

(** [sep.join(parts)] *)
Fixpoint join (sep : text) (parts : list text) : text :=
  match parts with
  | [] => []
  | x :: rest =>
      match rest with
      | [] => x
      | _ :: _ => x ++ sep ++ join sep rest
      end
  end.

(** [s.split()]: the maximal runs of non-whitespace characters. *)
Fixpoint split_ws (s : text) : list text :=
  match s with
  | [] => []
  | c :: s' =>
      if isspace c then split_ws s'
      else match s' with
           | [] => [[c]]
           | d :: _ =>
               if isspace d then [c] :: split_ws s'
               else match split_ws s' with
                    | w :: ws => (c :: w) :: ws
                    | [] => [[c]]
                    end
           end
  end.

(** [s.split(sep)] for a non-empty [sep]: cut at the leftmost occurrence,
    go on after it.  The recursion is on a count of the cuts still
    possible; [split] starts it with the length of [s], which is never
    exhausted (lemma [split_fuel_enough]). *)
Fixpoint split_fuel (fuel : nat) (sep s : text) : list text :=
  match fuel with
  | 0 => [s]
  | S fuel' =>
      match find sep s with
      | None => [s]
      | Some i => firstn i s :: split_fuel fuel' sep (skipn (i + length sep) s)
      end
  end.

Definition split (sep s : text) : list text := split_fuel (length s) sep s.

(** [s[:n]] *)
Definition slice_to (n : nat) (s : text) : text := firstn n s.

End Py.

(** ** Regular expressions

    The patterns of the program are sequences of character classes, each
    taken once or repeated greedily.  [match_here] is the backtracking
    matcher of the [re] module on such a pattern: a repetition first takes
    the longest run and gives characters back one at a time until the rest
    of the pattern matches. *)

Module Re.

Local Open Scope list_scope.
Local Open Scope nat_scope.

Inductive item : Type :=
| One (c : ascii -> bool)      (* [c]  *)
| Plus (c : ascii -> bool)     (* [c]+ *)
| Star (c : ascii -> bool).    (* [c]* *)

Definition pattern := list item.

(** Length of the longest prefix of [s] made of characters of [c]. *)
Fixpoint run (c : ascii -> bool) (s : text) : nat :=
  match s with
  | [] => 0
  | a :: s' => if c a then S (run c s') else 0
  end.

(** First success of [f] at [k], [k - 1], ..., [lo]. *)
Fixpoint try_down (f : nat -> option nat) (lo k : nat) : option nat :=
  if k <? lo then None
  else match f k with
       | Some r => Some r
       | None => match k with
                 | 0 => None
                 | S k' => try_down f lo k'
                 end
       end.

(** The number of characters the pattern takes at the start of [s]. *)
Fixpoint match_here (p : pattern) (s : text) : option nat :=
  match p with
  | [] => Some 0
  | One c :: p' =>
      match s with
      | a :: s' => if c a then option_map S (match_here p' s') else None
      | [] => None
      end
  | Plus c :: p' =>
      try_down (fun k => option_map (Nat.add k) (match_here p' (skipn k s)))
               1 (run c s)
  | Star c :: p' =>
      try_down (fun k => option_map (Nat.add k) (match_here p' (skipn k s)))
               0 (run c s)
  end.

(** [re.search]: the match at the first position that has one, as
    (start, length).  [pos] is the position of [s] in the whole text. *)
Fixpoint search_from (p : pattern) (pos : nat) (s : text) : option (nat * nat) :=
  match match_here p s with
  | Some n => Some (pos, n)
  | None => match s with
            | [] => None
            | _ :: s' => search_from p (S pos) s'
            end
  end.

Definition search (p : pattern) (s : text) : option (nat * nat) :=
  search_from p 0 s.

(** [match.group(0)] *)
Definition group0 (s : text) (m : nat * nat) : text :=
  firstn (snd m) (skipn (fst m) s).

(** The language of a pattern. *)
Inductive matches : pattern -> text -> Prop :=
| matches_nil : matches [] []
| matches_one c p a w :
    c a = true -> matches p w -> matches (One c :: p) (a :: w)
| matches_plus c p u w :
    u <> [] -> Forall (fun a => c a = true) u -> matches p w ->
    matches (Plus c :: p) (u ++ w)
| matches_star c p u w :
    Forall (fun a => c a = true) u -> matches p w ->
    matches (Star c :: p) (u ++ w).

End Re.

Local Open Scope string_scope.
Local Open Scope list_scope.
Local Open Scope nat_scope.

(** ** Text utilities *)

Definition is_char (x : string) (c : ascii) : bool :=
  match x with
  | String a EmptyString => Ascii.eqb c a
  | _ => false
  end.

(** [[\w\.-]] *)
Definition email_class (c : ascii) : bool :=
  Py.is_word c || is_char "." c || is_char "-" c.

(** [r"[\w\.-]+@[\w\.-]+\.\w+"] *)
Definition email_re : Re.pattern :=
  [Re.Plus email_class; Re.One (is_char "@"); Re.Plus email_class;
   Re.One (is_char "."); Re.Plus Py.is_word].

Definition extract_email (t : text) : text :=
  match Re.search email_re t with
  | Some m => Re.group0 t m
  | None => []
  end.

(** ** The markup tree

    What [BeautifulSoup(page_source, 'html.parser')] returns: a root whose
    contents are strings, comments and tags.  Attribute values are
    strings; an attribute list is read at its first entry for a name.

    The library has several kinds of string.  [get_text] reads the plain
    ones, [NavigableString] and [CData]; it leaves out comments,
    declarations, doctypes and processing instructions, and the strings
    inside [script], [style] and [template] elements ([Script],
    [Stylesheet], [TemplateString]).  The tree has one constructor for
    each behaviour: a string of a kind that [get_text] leaves out is given
    as [Comment], whatever its kind; in particular the body of a [script],
    [style] or [template] element is a [Comment] child of its tag.  A page
    that gave such a body as [NavigableString] would make [get_text], and
    with it the address search of [extract_job_data], read text that the
    program never reads. *)

#[warnings="-register-all"]
Inductive node : Type :=
| NavigableString (s : text)
| Comment (s : text)
| Tag (name : string) (attrs : list (string * text)) (contents : list node).

(** A parsed page: the root object with the top-level nodes as contents. *)
Definition soup_of (contents : list node) : node :=
  Tag "[document]" [] contents.

Module Bs.

Local Open Scope list_scope.

Fixpoint lookup (k : string) (attrs : list (string * text)) : option text :=
  match attrs with
  | [] => None
  | (k', v) :: rest => if String.eqb k k' then Some v else lookup k rest
  end.

(** [tag.get(k)] *)
Definition get (k : string) (n : node) : option text :=
  match n with
  | Tag _ attrs _ => lookup k attrs
  | NavigableString _ | Comment _ => None
  end.

Definition is_tag (name : string) (n : node) : bool :=
  match n with
  | Tag name' _ _ => String.eqb name name'
  | NavigableString _ | Comment _ => false
  end.

(** The values of the multi-valued [class] attribute. *)
Definition classes (n : node) : list text :=
  match get "class" n with
  | Some v => Py.split_ws v
  | None => []
  end.

(** [class_=c] of [find] and [.c] of a selector, for a single class
    name [c]: one of the tag's classes is [c]. *)
Definition has_class (c : text) (n : node) : bool :=
  existsb (Py.text_eqb c) (classes n).

(** [node.descendants]: every node below, in document order. *)
Fixpoint descendants (n : node) : list node :=
  match n with
  | NavigableString _ | Comment _ => []
  | Tag _ _ cs => flat_map (fun c => c :: descendants c) cs
  end.

(** The strings below a node that [get_text] reads, in document order:
    those given as [Comment] (comments, declarations, and the bodies of
    [script], [style] and [template] elements) are not among them. *)
Fixpoint strings (n : node) : list text :=
  match n with
  | NavigableString s => [s]
  | Comment _ => []
  | Tag _ _ cs => flat_map strings cs
  end.

(** [node.get_text(sep, strip=True)]: each string stripped, the empty
    ones dropped, the rest joined by [sep]. *)
Definition get_text (sep : text) (n : node) : text :=
  Py.join sep (filter Py.truthy (map Py.strip (strings n))).

(** [tag.string]: the single string (or comment) of a tag, through single
    children. *)
Fixpoint string_of (n : node) : option text :=
  match n with
  | NavigableString s | Comment s => Some s
  | Tag _ _ cs =>
      match cs with
      | [c] => string_of c
      | _ => None
      end
  end.

(** An element as a search returns it: the node and [next_elements], the
    nodes after it in document order. *)
Definition element : Type := node * list node.

Fixpoint find_first (p : node -> bool) (l : list node) : option element :=
  match l with
  | [] => None
  | n :: rest => if p n then Some (n, rest) else find_first p rest
  end.

(** [soup.find(...)], with [p] the test its arguments stand for. *)
Definition find (p : node -> bool) (root : node) : option element :=
  find_first p (descendants root).

(** [tag.find(...)] where only the found tag itself is used. *)
Definition find_in (p : node -> bool) (n : node) : option node :=
  option_map fst (find p n).

(** [element.find_next(...)] *)
Definition find_next (p : node -> bool) (e : element) : option element :=
  find_first p (snd e).

(** [tag.find_all(...)] *)
Definition find_all (p : node -> bool) (root : node) : list node :=
  filter p (descendants root).

(** *** CSS selectors

    A compound selector [tag], [tag.class] or [tag[attr^="prefix"]]; a
    selector is a list of compounds under the descendant combinator. *)
Record compound : Type := {
  sel_tag : string;
  sel_class : option text;
  sel_attr_prefix : option (string * text)
}.

Definition matches_compound (c : compound) (n : node) : bool :=
  is_tag (sel_tag c) n
  && match sel_class c with
     | Some cl => has_class cl n
     | None => true
     end
  && match sel_attr_prefix c with
     | Some (k, pre) =>
         match get k n with
         | Some v => Py.startswith pre v
         | None => false
         end
     | None => true
     end.

(** Do the ancestors (nearest first) hold matches of [cs] (innermost
    compound first), in that order going outwards? *)
Fixpoint under (cs : list compound) (ancestors : list node) : bool :=
  match cs with
  | [] => true
  | c :: cs' =>
      (fix look (anc : list node) : bool :=
         match anc with
         | [] => false
         | a :: anc' => if matches_compound c a then under cs' anc' else look anc'
         end) ancestors
  end.

Definition matches_selector (rsel : list compound) (ancestors : list node)
           (n : node) : bool :=
  match rsel with
  | [] => false
  | c :: cs => matches_compound c n && under cs ancestors
  end.

(** The matches at and below [n], in document order; [rsel] is the
    selector with its last compound first. *)
Fixpoint select_at (rsel : list compound) (ancestors : list node) (n : node)
  : list node :=
  match n with
  | NavigableString _ | Comment _ => []
  | Tag _ _ cs =>
      (if matches_selector rsel ancestors n then [n] else [])
      ++ flat_map (select_at rsel (n :: ancestors)) cs
  end.

(** [root.select(sel)] *)
Definition select (sel : list compound) (root : node) : list node :=
  match root with
  | NavigableString _ | Comment _ => []
  | Tag _ _ cs => flat_map (select_at (rev sel) []) cs
  end.

(** [root.select_one(sel)] *)
Definition select_one (sel : list compound) (root : node) : option node :=
  hd_error (select sel root).

End Bs.

(** [extract_text_safe(elem)] *)
Definition extract_text_safe (elem : option node) : text :=
  match elem with
  | Some e => Bs.get_text [] e
  | None => []
  end.

(** ** Cleaning and formatting *)

Definition NL : text := [ascii_of_nat 10].

(** The literals of the source with characters beyond code point 255.
    The bullet marker of the source is the three code points U+201A,
    U+00C4, U+00A2; the first is beyond 255, so the marker is kept as the
    seven bytes of its UTF-8 encoding, each a character of [text], and the
    glyphs before the labels likewise.  The marker holds no whitespace and
    none of the characters [-] and [*], in the source and here.  The two
    differ on a line that starts with those seven characters below 256
    without being marked: [bulleted] takes it for marked and leaves it as
    it is, where the program puts its marker before it. *)
Definition BULLET : text := "‚Ä¢".
Definition DESC_HEADER : text := "üìù **Job Description:**" ++ NL.
Definition REQ_HEADER : text := "üìå **Requirements:**" ++ NL.

(** [[-*...]]: the characters of the class that are below code point 256,
    which are [-], [*], U+00C4 and U+00A2; U+201A, the fifth character of
    the class, is no character of [text], so no line here starts with
    it. *)
Definition bullet_class (c : ascii) : bool :=
  is_char "-" c || is_char "*" c
  || Nat.eqb (Py.code c) 196 || Nat.eqb (Py.code c) 162.

(** [re.sub(r'^\s*[-*...]\s*', BULLET + ' ', line)]: the pattern is anchored
    at the start, so it is replaced at most once. *)
Definition sub_bullet (line : text) : text :=
  match Re.match_here [Re.Star Py.isspace; Re.One bullet_class; Re.Star Py.isspace]
                      line with
  | Some n => BULLET ++ " " ++ skipn n line
  | None => line
  end.

(** [re.sub(r'\s+', ' ', line)]; [in_run] says the previous character was
    whitespace. *)
Fixpoint collapse_ws (in_run : bool) (line : text) : text :=
  match line with
  | [] => []
  | c :: rest =>
      if Py.isspace c
      then if in_run then collapse_ws true rest
           else " "%char :: collapse_ws true rest
      else c :: collapse_ws false rest
  end.

Definition raw_lines (block : node) : list text :=
  filter Py.truthy
    (map (Bs.get_text " ")
         (Bs.find_all (fun n => Bs.is_tag "p" n || Bs.is_tag "li" n) block)).

Definition clean_line (line : text) : text :=
  Py.strip (collapse_ws false (sub_bullet line)).

(** The loop over [cleaned_lines]: its state is [section] and the two
    lists built so far. *)
Inductive section : Type := desc | req.

Record split_state : Type := {
  st_section : section;
  description_lines : list text;
  requirements_lines : list text
}.

(** ['requirement' in line.lower()] *)
Definition is_separator (line : text) : bool :=
  Py.contains "requirement" (Py.lower line).

Definition split_step (st : split_state) (line : text) : split_state :=
  if is_separator line
  then {| st_section := req;
          description_lines := description_lines st;
          requirements_lines := requirements_lines st |}
  else match st_section st with
       | desc => {| st_section := desc;
                    description_lines := description_lines st ++ [line];
                    requirements_lines := requirements_lines st |}
       | req => {| st_section := req;
                   description_lines := description_lines st;
                   requirements_lines := requirements_lines st ++ [line] |}
       end.

Definition split_init : split_state :=
  {| st_section := desc; description_lines := []; requirements_lines := [] |}.

Definition split_lines (cleaned_lines : list text) : split_state :=
  fold_left split_step cleaned_lines split_init.

(** [l if l.startswith(BULLET) else BULLET + ' ' + l] *)
Definition bulleted (l : text) : text :=
  if Py.startswith BULLET l then l else BULLET ++ " " ++ l.

Definition format_block (header : text) (lines : list text) : text :=
  match lines with
  | [] => []
  | _ :: _ => header ++ Py.join NL (map bulleted lines)
  end.

Definition clean_and_format_text (block : node) : text * text :=
  let cleaned_lines := map clean_line (raw_lines block) in
  let st := split_lines cleaned_lines in
  (Py.strip (format_block DESC_HEADER (description_lines st)),
   Py.strip (format_block REQ_HEADER (requirements_lines st))).

(** ** Results of calls that can raise *)

Inductive exn : Type :=
| AttributeError        (* an attribute of [None] was read *)
| WebDriverException    (* navigation or the wait for the page failed *)
| ValueError            (* [writerows] was given a row with an unknown key *)
| OSError.              (* the output file could not be opened *)

Inductive result (A : Type) : Type :=
| Returned (a : A)
| Raised (e : exn).

Arguments Returned {A} a.
Arguments Raised {A} e.

Definition bind {A B : Type} (m : result A) (k : A -> result B) : result B :=
  match m with
  | Returned a => k a
  | Raised e => Raised e
  end.

Notation "x <- m ;; k" := (bind m (fun x => k))
  (at level 61, m at next level, right associativity).

Notation "' pat <- m ;; k" := (bind m (fun x => match x with pat => k end))
  (at level 61, pat pattern, m at next level, right associativity).

(** ** Job data extraction *)

Definition BASE_URL : text := "https://www.myjobmag.com".
Definition JOBS_URL : text := BASE_URL ++ "/jobs".

(** A job record: a [dict] in insertion order. *)
Definition record : Type := list (string * text).

Definition keys (r : record) : list string := map fst r.

(** Lines 74-80: the title and the company from the first [h1]. *)
Definition title_company (soup : node) : text * text :=
  match Bs.find (Bs.is_tag "h1") soup with
  | Some h1 =>
      let parts := Py.split " at " (Bs.get_text " " (fst h1)) in
      (Py.strip (nth 0 parts []),
       if 1 <? length parts then Py.strip (nth 1 parts []) else [])
  | None => ([], [])
  end.

(** [lambda s: s and 'Read more about' in s] on [tag.string] *)
Definition read_more (s : option text) : bool :=
  match s with
  | Some s => Py.truthy s && Py.contains "Read more about" s
  | None => false
  end.

(** Lines 82-90. *)
Definition tagline (soup : node) : text :=
  match Bs.find (fun n => Bs.is_tag "div" n && Bs.has_class "company-details" n) soup with
  | Some tagline_div => extract_text_safe (Bs.find_in (Bs.is_tag "p") (fst tagline_div))
  | None =>
      match Bs.find (fun n => Bs.is_tag "a" n && read_more (Bs.string_of n)) soup with
      | Some about_link =>
          extract_text_safe (option_map fst (Bs.find_next (Bs.is_tag "p") about_link))
      | None => []
      end
  end.

(** The variables the key-info loop assigns. *)
Record key_info : Type := {
  location : text;
  qualification : text;
  experience : text;
  job_type : text;
  field : text;
  salary : text;
  job_expires : text
}.

Definition key_info_init : key_info :=
  {| location := []; qualification := []; experience := []; job_type := [];
     field := []; salary := []; job_expires := [] |}.

Definition span_of_class (c : text) (n : node) : bool :=
  Bs.is_tag "span" n && Bs.has_class c n.

(** One turn of the loop of lines 94-110. *)
Definition key_info_step (k : key_info) (li : node) : key_info :=
  let key := Py.lower (extract_text_safe (Bs.find_in (span_of_class "jkey-title") li)) in
  let val := extract_text_safe (Bs.find_in (span_of_class "jkey-info") li) in
  if Py.contains "location" key then
    {| location := val; qualification := qualification k; experience := experience k;
       job_type := job_type k; field := field k; salary := salary k;
       job_expires := job_expires k |}
  else if Py.contains "qualification" key then
    {| location := location k; qualification := val; experience := experience k;
       job_type := job_type k; field := field k; salary := salary k;
       job_expires := job_expires k |}
  else if Py.contains "experience" key then
    {| location := location k; qualification := qualification k; experience := val;
       job_type := job_type k; field := field k; salary := salary k;
       job_expires := job_expires k |}
  else if Py.contains "job type" key then
    {| location := location k; qualification := qualification k; experience := experience k;
       job_type := val; field := field k; salary := salary k;
       job_expires := job_expires k |}
  else if Py.contains "field" key then
    {| location := location k; qualification := qualification k; experience := experience k;
       job_type := job_type k; field := val; salary := salary k;
       job_expires := job_expires k |}
  else if Py.contains "salary" key then
    {| location := location k; qualification := qualification k; experience := experience k;
       job_type := job_type k; field := field k; salary := val;
       job_expires := job_expires k |}
  else if Py.contains "deadline" key || Py.contains "expires" key then
    {| location := location k; qualification := qualification k; experience := experience k;
       job_type := job_type k; field := field k; salary := salary k;
       job_expires := val |}
  else k.

Definition sel (tag : string) (cl : option text) (pre : option (string * text))
  : Bs.compound :=
  {| Bs.sel_tag := tag; Bs.sel_class := cl; Bs.sel_attr_prefix := pre |}.

(** ["ul.job-key-info li"] *)
Definition KEY_INFO_SELECTOR : list Bs.compound :=
  [sel "ul" (Some ("job-key-info" : text)) None; sel "li" None None].

(** ["div.job-details"] *)
Definition JOB_DETAILS_SELECTOR : list Bs.compound :=
  [sel "div" (Some ("job-details" : text)) None].

Definition key_info_of (soup : node) : key_info :=
  fold_left key_info_step (Bs.select KEY_INFO_SELECTOR soup) key_info_init.

(** Lines 112-115. *)
Definition description_requirements (soup : node) : text * text :=
  match Bs.select_one JOB_DETAILS_SELECTOR soup with
  | Some desc_block => clean_and_format_text desc_block
  | None => ([], [])
  end.

Definition has_href (n : node) : bool :=
  match Bs.get "href" n with Some _ => true | None => false end.

(** [a['href']] of a tag found with an [href]. *)
Definition href_of (a : node) : text :=
  match Bs.get "href" a with Some v => v | None => [] end.

(** [BASE_URL + href if href.startswith('/') else href] *)
Definition resolve (href : text) : text :=
  if Py.startswith "/" href then BASE_URL ++ href else href.

Definition is_method_heading (n : node) : bool :=
  Bs.is_tag "h2" n
  && match Bs.get "id" n with
     | Some v => Py.text_eqb v "application-method"
     | None => false
     end.

(** Lines 117-125: the application email and URL.  [find_next('div')] is
    [None] when no [div] follows the heading, and [None.get_text] raises. *)
Definition application_contact (soup : node) : result (text * text) :=
  match Bs.find is_method_heading soup with
  | None => Returned ([], [])
  | Some method_block =>
      match Bs.find_next (Bs.is_tag "div") method_block with
      | None => Raised AttributeError
      | Some next_div =>
          let method_text := Bs.get_text " " (fst next_div) in
          let application_email := extract_email method_text in
          match Bs.find_in (fun n => Bs.is_tag "a" n && has_href n) (fst next_div) with
          | Some a_tag => Returned (application_email, resolve (href_of a_tag))
          | None => Returned (application_email, [])
          end
      end
  end.

Definition NLNL : text := NL ++ NL.

(** Lines 134-144. *)
Definition combined_info (company : text) (k : key_info)
           (description requirements : text) : text :=
  Py.strip
    ("üè¢ **Company:** " ++ company ++ NLNL
     ++ "üìç **Location:** " ++ location k ++ NLNL
     ++ "üéì **Qualification:** " ++ qualification k ++ NLNL
     ++ "‚è≥ **Experience:** " ++ experience k ++ NLNL
     ++ "üíº **Job Type:** " ++ job_type k ++ NLNL
     ++ "üí∞ **Salary:** " ++ salary k ++ NLNL
     ++ "üî¨ **Field:** " ++ field k ++ NLNL
     ++ description ++ NLNL
     ++ requirements).

(** [x if s else ""] *)
Definition when (s : text) (x : text) : text :=
  if Py.truthy s then x else [].

(** ['-'.join(title.lower().split())[:50]] *)
Definition slug_of (title : text) : text :=
  Py.slice_to 50 (Py.join "-" (Py.split_ws (Py.lower title))).

Definition extract_job_data (soup : node) : result (option record) :=
  let '(title, company) := title_company soup in
  let company_tagline := tagline soup in
  let k := key_info_of soup in
  let '(description, requirements) := description_requirements soup in
  '(application_email, application_url) <- application_contact soup ;;
  if negb (Py.truthy application_email) && negb (Py.truthy application_url)
  then Returned None
  else
    let slug := slug_of title in
    let post_category : text := "job" in
    Returned (Some
      [ ("post_title", title ++ when company (" at " ++ company)
                             ++ when (location k) (" in " ++ location k));
        ("company", company);
        ("company_tagline", company_tagline);
        ("job_location", location k);
        ("job_type", job_type k);
        ("job_salary", salary k);
        ("job_expires", job_expires k);
        ("job_category", field k);
        ("required_qualifications", qualification k);
        ("skills_required", []);
        ("application_url", application_url);
        ("application_email", application_email);
        ("slug", slug);
        ("post_category", post_category);
        ("post_tag", field k);
        ("subcategory", field k);
        ("post_content", combined_info company k description requirements) ]).

(** ** Job links *)

Definition job_href : option (string * text) := Some ("href", "/job/" : text).

(** The three selectors of [get_job_links], in the order of the source. *)
Definition selectors : list (list Bs.compound) :=
  [ [sel "div" (Some ("mag-b" : text)) None; sel "h2" None None; sel "a" None job_href];
    [sel "div" (Some ("job-listing" : text)) None; sel "h2" None None; sel "a" None job_href];
    [sel "a" None job_href] ].

(** [[a['href'] for a in soup.select(selector)]] *)
Definition hrefs_selected (selector : list Bs.compound) (soup : node) : list text :=
  map href_of (Bs.select selector soup).

(** [[a['href'] for a in soup.find_all('a', href=True) if '/job/' in a['href']]] *)
Definition fallback_links (soup : node) : list text :=
  filter (Py.contains "/job/")
         (map href_of (Bs.find_all (fun n => Bs.is_tag "a" n && has_href n) soup)).

(** The loop over [selectors]: return at the first non-empty list. *)
Fixpoint first_links (sels : list (list Bs.compound)) (soup : node) : list text :=
  match sels with
  | [] => fallback_links soup
  | selector :: rest =>
      match hrefs_selected selector soup with
      | [] => first_links rest soup
      | (_ :: _) as job_links => job_links
      end
  end.

Definition get_job_links (soup : node) : list text := first_links selectors soup.

(** ** The crawl

    What a run meets outside the program is the browser session and the
    output directory.  [load b k url] stands for [driver.get(url)], the
    wait for the page body and the parse of [driver.page_source], at the
    [k]-th navigation of the run: a parsed page, or the exception one of
    the three raised.  [open_csv b] stands for the [open(file_path, 'w')]
    of line 223, in the [Desktop] directory of the user's home, which the
    program neither creates nor checks: it returns or raises.  The calls
    to [get_driver], [print], [input], [time.sleep] and [driver.quit], and
    the writes to a file that has been opened, are taken to return.  What
    the run does to the outside is recorded as a list of events. *)

Record world : Type := {
  load : nat -> text -> result node;
  open_csv : result unit
}.

Inductive event : Type :=
| Navigate (url : text)                                (* [driver.get(url)] *)
| Pause                                                (* [time.sleep(random.uniform(2, 4))] *)
| QuitDriver                                           (* [driver.quit()] *)
| WriteCsv (fieldnames : list string) (rows : list record)
                                                       (* the file opened, header and rows written *)
| WaitEnter.                                           (* [input(...)] *)

(** [scrape_job]: any exception of the page is caught and gives [None]. *)
Definition scrape_job (b : world) (k : nat) (job_url : text) : option record :=
  match (job_soup <- load b k job_url ;; extract_job_data job_soup) with
  | Returned row => row
  | Raised _ => None
  end.

(** [if row: data_rows.append(row)]: [row] counts when it is neither
    [None] nor an empty [dict]. *)
Definition append_row (data_rows : list record) (row : option record) : list record :=
  match row with
  | Some ((_ :: _) as r) => data_rows ++ [r]
  | _ => data_rows
  end.

(** The loop of lines 208-214 over the links it is given; [k] counts the
    navigations made so far. *)
Fixpoint crawl (b : world) (k : nat) (links : list text) (data_rows : list record)
  : list event * list record :=
  match links with
  | [] => ([], data_rows)
  | link :: rest =>
      let job_url := resolve link in
      let row := scrape_job b k job_url in
      let data_rows := append_row data_rows row in
      let '(evs, out) := crawl b (S k) rest data_rows in
      (Navigate job_url :: Pause :: evs, out)
  end.

(** [csv.DictWriter.writerows]: a row with a key outside [fieldnames] is
    refused with [ValueError]. *)
Definition row_fits (fieldnames : list string) (row : record) : bool :=
  forallb (fun k => existsb (String.eqb k) fieldnames) (keys row).

(** The rows written before the first one that is refused. *)
Fixpoint fitting_prefix (fieldnames : list string) (rows : list record) : list record :=
  match rows with
  | [] => []
  | row :: rest =>
      if row_fits fieldnames row then row :: fitting_prefix fieldnames rest else []
  end.

Inductive outcome : Type :=
| Done                      (* [main] returned *)
| Uncaught (e : exn).       (* an exception left [main] *)

(** Lines 218-232; [opened] is what [open(file_path, 'w')] does. *)
Definition flush (opened : result unit) (data_rows : list record)
  : list event * outcome :=
  match data_rows with
  | [] => ([WaitEnter], Done)
  | first :: _ =>
      match opened with
      | Raised e => ([], Uncaught e)
      | Returned _ =>
          if forallb (row_fits (keys first)) data_rows
          then ([WriteCsv (keys first) data_rows; WaitEnter], Done)
          else ([WriteCsv (keys first) (fitting_prefix (keys first) data_rows)],
                Uncaught ValueError)
      end
  end.

Definition LINK_CAP : nat := 10.

Definition main (b : world) : list event * outcome :=
  match load b 0 JOBS_URL with
  | Raised e => ([Navigate JOBS_URL], Uncaught e)
  | Returned soup =>
      match get_job_links soup with
      | [] => ([Navigate JOBS_URL; QuitDriver; WaitEnter], Done)
      | (_ :: _) as job_links =>
          let '(evs, data_rows) := crawl b 1 (firstn LINK_CAP job_links) [] in
          let '(out, res) := flush (open_csv b) data_rows in
          (Navigate JOBS_URL :: evs ++ QuitDriver :: out, res)
      end
  end.

(** What a trace shows. *)
Definition is_write (e : event) : bool :=
  match e with WriteCsv _ _ => true | _ => false end.

Definition file_written (trace : list event) : bool := existsb is_write trace.

Fixpoint navigations (trace : list event) : list text :=
  match trace with
  | [] => []
  | Navigate url :: rest => url :: navigations rest
  | _ :: rest => navigations rest
  end.

Fixpoint rows_written (trace : list event) : list record :=
  match trace with
  | [] => []
  | WriteCsv _ rows :: rest => rows ++ rows_written rest
  | _ :: rest => rows_written rest
  end.

(** The batch a run accumulates when its listing page is [soup]. *)
Definition batch (b : world) (soup : node) : list record :=
  snd (crawl b 1 (firstn LINK_CAP (get_job_links soup)) []).

(** The field names of a record, in the order of the [dict] literal. *)
Definition FIELDS : list string :=
  ["post_title"; "company"; "company_tagline"; "job_location"; "job_type";
   "job_salary"; "job_expires"; "job_category"; "required_qualifications";
   "skills_required"; "application_url"; "application_email"; "slug";
   "post_category"; "post_tag"; "subcategory"; "post_content"].

(** ** Notions of the statements *)

Definition not_separator (line : text) : bool := negb (is_separator line).

Definition no_lead (s : text) : Prop :=
  match s with
  | [] => True
  | c :: _ => Py.isspace c = false
  end.

(** Neither leading nor trailing whitespace, and not empty. *)
Definition stripped_piece (s : text) : Prop :=
  s <> [] /\ no_lead s /\ Py.rstrip s = s.

Definition AT : text := " at ".

(** [sub] stands in [s] at index [j]. *)
Definition occurs (sub s : text) (j : nat) : Prop :=
  Py.startswith sub (skipn j s) = true.

Definition FIELDS_ok (r : record) : Prop := keys r = FIELDS.

(** What the end of a run does with a batch of records: nothing but the
    prompt for an empty one; else the file, if it opens, and the prompt. *)
Definition written (opened : result unit) (rows : list record)
  : list event * outcome :=
  match rows with
  | [] => ([WaitEnter], Done)
  | _ :: _ =>
      match opened with
      | Returned _ => ([WriteCsv FIELDS rows; WaitEnter], Done)
      | Raised e => ([], Uncaught e)
      end
  end.

(** The records of a list of optional rows. *)
Definition records_of (rows : list (option record)) : list record :=
  flat_map (fun row => match row with Some r => [r] | None => [] end) rows.

(** What [scrape_job] gives for each link, the first at navigation [k]. *)
Fixpoint scraped (b : world) (k : nat) (links : list text) : list (option record) :=
  match links with
  | [] => []
  | link :: rest => scrape_job b k (resolve link) :: scraped b (S k) rest
  end.

(** A text has the shape of an email address when it is in the language of
    the pattern. *)
Definition email_shaped (w : text) : Prop := Re.matches email_re w.

(** An email-shaped substring of [t]: at index [i], of length [n]. *)
Definition occurs_at (t : text) (i n : nat) : Prop :=
  i + n <= length t /\ email_shaped (firstn n (skipn i t)).

Definition all_in (c : ascii -> bool) (u : text) : Prop :=
  Forall (fun a => c a = true) u.

(** Neither the first nor the last character is whitespace. *)
Definition trimmed (s : text) : Prop := no_lead s /\ no_lead (rev s).

(** Only whitespace, if anything. *)
Definition blank (s : text) : bool := forallb Py.isspace s.

(** No two whitespace characters side by side. *)
Fixpoint single_spaced (s : text) : bool :=
  match s with
  | [] => true
  | c :: t =>
      match t with
      | [] => true
      | d :: _ => negb (Py.isspace c && Py.isspace d) && single_spaced t
      end
  end.

(** The label and the value a key-info entry is read as (lines 95-96). *)
Definition label_of (li : node) : text :=
  Py.lower (extract_text_safe (Bs.find_in (span_of_class "jkey-title") li)).

Definition value_of (li : node) : text :=
  extract_text_safe (Bs.find_in (span_of_class "jkey-info") li).

(** The variables of the key-info loop, by name. *)
Inductive info_field : Type :=
| f_location | f_qualification | f_experience | f_job_type
| f_field | f_salary | f_job_expires.

Definition read (f : info_field) (k : key_info) : text :=
  match f with
  | f_location => location k
  | f_qualification => qualification k
  | f_experience => experience k
  | f_job_type => job_type k
  | f_field => field k
  | f_salary => salary k
  | f_job_expires => job_expires k
  end.

(** The variable a label goes to: that of the first keyword, in the order
    of the [if]/[elif] chain, that the label contains. *)
Definition classify (key : text) : option info_field :=
  if Py.contains "location" key then Some f_location
  else if Py.contains "qualification" key then Some f_qualification
  else if Py.contains "experience" key then Some f_experience
  else if Py.contains "job type" key then Some f_job_type
  else if Py.contains "field" key then Some f_field
  else if Py.contains "salary" key then Some f_salary
  else if Py.contains "deadline" key || Py.contains "expires" key then Some f_job_expires
  else None.

(** A page with two entries for the location and a label with two
    keywords. *)
Definition page_key_info : node :=
  soup_of
    [ Tag "ul" [("class", "job-key-info" : text)]
          [ Tag "li" []
                [ Tag "span" [("class", "jkey-title" : text)] [NavigableString "Location"];
                  Tag "span" [("class", "jkey-info" : text)] [NavigableString "Mombasa"] ];
            Tag "li" []
                [ Tag "span" [("class", "jkey-title" : text)]
                      [NavigableString "Location and Salary"];
                  Tag "span" [("class", "jkey-info" : text)] [NavigableString "Nairobi"] ];
            Tag "li" []
                [ Tag "span" [("class", "jkey-title" : text)] [NavigableString "Job Type"];
                  Tag "span" [("class", "jkey-info" : text)] [NavigableString "Full Time"] ] ] ].

(** The events of one turn of the loop: the visit, then the pause. *)
Definition visit_events (link : text) : list event :=
  [Navigate (resolve link); Pause].

(** The fields of a record whose values are extracted text. *)
Definition TEXT_FIELDS : list string :=
  ["company"; "company_tagline"; "job_location"; "job_type"; "job_salary";
   "job_expires"; "job_category"; "required_qualifications"; "post_tag";
   "subcategory"; "post_content"].

(** A record with a way to apply: an email or a URL that is not empty. *)
Definition has_contact (r : record) : Prop :=
  exists email url,
    Bs.lookup "application_email" r = Some email
    /\ Bs.lookup "application_url" r = Some url
    /\ (email <> [] \/ url <> []).

(** The [href]s, in document order, of the [a] elements among [nodes] that
    have an [href] passing [test]. *)
Definition anchor_hrefs (test : text -> bool) (nodes : list node) : list text :=
  flat_map
    (fun n =>
       match n with
       | Tag name attrs _ =>
           if String.eqb "a" name
           then match Bs.lookup "href" attrs with
                | Some link => if test link then [link] else []
                | None => []
                end
           else []
       | NavigableString _ | Comment _ => []
       end)
    nodes.

(** [n] is an [a] element whose [href] is [link]. *)
Definition anchor_to (link : text) (n : node) : Prop :=
  exists attrs contents,
    n = Tag "a" attrs contents /\ Bs.lookup "href" attrs = Some link.

(** *** The slug over any alphabet

    Line 130 with the [str] methods it calls as parameters: [isspace] is
    the whitespace test of [split()], [lower] is [str.lower], [hyphen] the
    character of the separator.  [slug_of] is the instance at the
    characters below code point 256 (lemma [slug_of_generic]). *)
Module Slug.
Section alphabet.

Variable char : Type.
Variable isspace : char -> bool.
Variable lower : list char -> list char.
Variable hyphen : char.

(** [s.split()] *)
Fixpoint words (s : list char) : list (list char) :=
  match s with
  | [] => []
  | c :: s' =>
      if isspace c then words s'
      else match s' with
           | [] => [[c]]
           | d :: _ =>
               if isspace d then [c] :: words s'
               else match words s' with
                    | w :: ws => (c :: w) :: ws
                    | [] => [[c]]
                    end
           end
  end.

(** [sep.join(parts)] *)
Fixpoint join_with (sep : list char) (parts : list (list char)) : list char :=
  match parts with
  | [] => []
  | x :: rest =>
      match rest with
      | [] => x
      | _ :: _ => x ++ sep ++ join_with sep rest
      end
  end.

(** ['-'.join(title.lower().split())[:50]] *)
Definition slug (title : list char) : list char :=
  firstn 50 (join_with [hyphen] (words (lower title))).

(** The first word, then every later word with one hyphen before it. *)
Definition hyphenated (ws : list (list char)) : list char :=
  match ws with
  | [] => []
  | w :: rest => w ++ flat_map (cons hyphen) rest
  end.

Definition gap (s : list char) : Prop := Forall (fun c => isspace c = true) s.

Definition solid (s : list char) : Prop := Forall (fun c => isspace c = false) s.

(** Nothing, or something that starts with whitespace. *)
Definition word_end (s : list char) : Prop :=
  match s with
  | [] => True
  | c :: _ => isspace c = true
  end.

(** [cut_into s ws]: [s] read from the left is whitespace, then the first
    word of [ws], not empty, free of whitespace and not continued by the
    next character, and so on; after the last word only whitespace. *)
Inductive cut_into : list char -> list (list char) -> Prop :=
| cut_blank (g : list char) :
    gap g -> cut_into g []
| cut_word (g w rest : list char) (ws : list (list char)) :
    gap g -> w <> [] -> solid w -> word_end rest ->
    cut_into rest ws ->
    cut_into (g ++ w ++ rest) (w :: ws).

End alphabet.
End Slug.

(** *** Titles with characters beyond code point 255

    [str.lower] leaves some uppercase letters as they are.  Three of them
    are added to the characters of [text]; for each, CPython's
    [str.isupper] is true, [str.isspace] is false and [str.lower] returns
    the character itself. *)
Module Wide.

Inductive char : Type :=
| Latin (a : ascii)
| DoubleStruckC
| MathBoldA
| MathBoldB.

Definition isspace (c : char) : bool :=
  match c with
  | Latin a => Py.isspace a
  | DoubleStruckC | MathBoldA | MathBoldB => false
  end.

Definition isupper (c : char) : bool :=
  match c with
  | Latin a => Py.isupper a
  | DoubleStruckC | MathBoldA | MathBoldB => true
  end.

Definition lower_char (c : char) : char :=
  match c with
  | Latin a => Latin (Py.lower_char a)
  | DoubleStruckC | MathBoldA | MathBoldB => c
  end.

Definition lower (s : list char) : list char := map lower_char s.

(** A [text] as a title over the wider alphabet. *)
Definition of_text (s : text) : list char := map Latin s.

Definition slug (title : list char) : list char :=
  Slug.slug isspace lower (Latin "-") title.

End Wide.

(** ** Sample pages *)

Definition txt (s : string) : node := NavigableString s.

Definition attr (k v : string) : string * text := (k, v : text).

(** A detail page with every part the extractor reads. *)
Definition page_full : node :=
  soup_of
    [ Tag "h1" [] [txt " Data Engineer at Acme Bank "];
      Tag "div" [attr "class" "company-details"]
          [Tag "p" [] [txt "A bank for everyone."]];
      Tag "ul" [attr "class" "list job-key-info"]
          [ Tag "li" []
                [ Tag "span" [attr "class" "jkey-title"] [txt "Location:"];
                  Tag "span" [attr "class" "jkey-info"] [txt "Nairobi"] ];
            Tag "li" []
                [ Tag "span" [attr "class" "jkey-title"] [txt "Job Field"];
                  Tag "span" [attr "class" "jkey-info"] [txt "ICT"] ] ];
      Tag "div" [attr "class" "job-details"]
          [ Tag "p" [] [txt "- Build  data pipelines"];
            Tag "p" [] [txt "Requirements"];
            Tag "li" [] [txt "BSc in Computer Science"] ];
      Tag "h2" [attr "id" "application-method"] [txt "Method of Application"];
      Tag "div" []
          [ txt "Send your CV to hr@acme.co.ke or";
            Tag "a" [attr "href" "/apply/77"] [txt "apply online"] ] ].

(** A heading in which " at " occurs twice. *)
Definition page_two_ats : node :=
  soup_of
    [ Tag "h1" [] [txt "Engineer at Bank at Home"];
      Tag "h2" [attr "id" "application-method"] [txt "Method of Application"];
      Tag "div" [] [txt "Write to jobs@bankathome.com"] ].

(** The application heading is the last element of the page: no [div]
    follows it. *)
Definition page_no_div : node :=
  soup_of
    [ Tag "h1" [] [txt "Accountant at Acme Bank"];
      Tag "h2" [attr "id" "application-method"] [txt "Method of Application"];
      Tag "p" [] [txt "Send your CV to hr@acme.co.ke"] ].

(** The application heading is the last node of the page: the page holds
    no address, no link and no [div]. *)
Definition page_heading_only : node :=
  soup_of
    [ Tag "h1" [] [txt "Accountant at Acme Bank"];
      Tag "h2" [attr "id" "application-method"] [txt "Method of Application"] ].

(** A page without contact details. *)
Definition page_no_contact : node :=
  soup_of [ Tag "h1" [] [txt "Accountant at Acme Bank"] ].

Definition job_link (href : string) : node :=
  Tag "a" [attr "href" href] [txt "View"].

(** A listing where the first selector matches one link and the third
    would match two. *)
Definition listing_mixed : node :=
  soup_of
    [ Tag "div" [attr "class" "mag-b"] [Tag "h2" [] [job_link "/job/1"]];
      Tag "div" [attr "class" "side"] [job_link "/job/2"] ].

(** A listing whose job links are absolute addresses: no selector matches
    one, the scan of all links finds two. *)
Definition listing_absolute : node :=
  soup_of
    [ Tag "div" [attr "class" "mag-b"]
          [Tag "h2" [] [job_link "https://www.myjobmag.com/job/9"]];
      Tag "a" [attr "href" "/about"] [txt "About"];
      Tag "a" [attr "name" "top"] [txt "Top"];
      Tag "p" [attr "href" "/job/0"] [txt "Not a link"];
      job_link "https://www.myjobmag.com/job/10" ].

(** A title that starts with the letters U+1D400 and U+1D401. *)
Definition title_bold : list Wide.char :=
  [Wide.MathBoldA; Wide.MathBoldB] ++ Wide.of_text " Engineer".

(** A listing with twelve links. *)
Definition listing_twelve : node :=
  soup_of
    (map (fun href => Tag "div" [attr "class" "mag-b"] [Tag "h2" [] [job_link href]])
         ["/job/1"; "/job/2"; "/job/3"; "/job/4"; "/job/5"; "/job/6";
          "/job/7"; "/job/8"; "/job/9"; "/job/10"; "/job/11"; "/job/12"]).

(** A session that serves [listing] first and [page] at every later
    navigation. *)
Definition serve (listing page : node) : world :=
  {| load := fun k _ => match k with 0 => Returned listing | S _ => Returned page end;
     open_csv := Returned tt |}.

(** The same run where the output file cannot be opened. *)
Definition no_desktop (b : world) : world :=
  {| load := load b; open_csv := Raised OSError |}.

(** * Properties *)

(** ** Characters and strings *)

Lemma lower_char_not_upper (c : ascii) : Py.isupper (Py.lower_char c) = false.
Proof. destruct c as [[] [] [] [] [] [] [] []]; reflexivity. Qed.

Lemma lower_not_upper (s : text) (c : ascii) :
  In c (Py.lower s) -> Py.isupper c = false.
Proof.
  unfold Py.lower. rewrite in_map_iff. intros [c' [<- _]].
  apply lower_char_not_upper.
Qed.

Lemma split_ws_words (s : text) (w : text) :
  In w (Py.split_ws s) ->
  w <> [] /\ forall c, In c w -> Py.isspace c = false /\ In c s.
Proof.
  revert w. induction s as [|c s IH]; intros w Hin; [contradiction|].
  simpl in Hin. destruct (Py.isspace c) eqn:Hc.
  - destruct (IH w Hin) as [Hne Hw]. split; [exact Hne|].
    intros x Hx. destruct (Hw x Hx). split; [assumption|now right].
  - destruct s as [|d s'].
    + destruct Hin as [<-|[]]. split; [discriminate|].
      intros x [<-|[]]. split; [assumption|now left].
    + destruct (Py.isspace d) eqn:Hd.
      * destruct Hin as [<-|Hin].
        -- split; [discriminate|]. intros x [<-|[]]. split; [assumption|now left].
        -- destruct (IH w Hin) as [Hne Hw]. split; [exact Hne|].
           intros x Hx. destruct (Hw x Hx). split; [assumption|now right].
      * destruct (Py.split_ws (d :: s')) as [|w0 ws] eqn:Hsp.
        -- destruct Hin as [<-|[]]. split; [discriminate|].
           intros x [<-|[]]. split; [assumption|now left].
        -- destruct Hin as [<-|Hin].
           ++ destruct (IH w0 (or_introl eq_refl)) as [_ Hw]. split; [discriminate|].
              intros x [<-|Hx]; [split; [assumption|now left]|].
              destruct (Hw x Hx). split; [assumption|now right].
           ++ destruct (IH w (or_intror Hin)) as [Hne Hw]. split; [exact Hne|].
              intros x Hx. destruct (Hw x Hx). split; [assumption|now right].
Qed.

Lemma join_chars (sep : text) (parts : list text) (c : ascii) :
  In c (Py.join sep parts) -> In c sep \/ exists w, In w parts /\ In c w.
Proof.
  induction parts as [|x rest IH]; simpl; [contradiction|].
  destruct rest as [|y rest'].
  - intros Hc. right. exists x. split; [now left|assumption].
  - rewrite !in_app_iff. intros [Hc|[Hc|Hc]].
    + right. exists x. split; [now left|assumption].
    + now left.
    + destruct (IH Hc) as [Hs|[w [Hw Hcw]]]; [now left|].
      right. exists w. split; [now right|assumption].
Qed.

Lemma slice_to_chars (n : nat) (s : text) (c : ascii) :
  In c (Py.slice_to n s) -> In c s.
Proof.
  unfold Py.slice_to. revert s. induction n as [|n IH]; intros [|a s]; simpl;
    try contradiction.
  intros [<-|Hc]; [now left|right; now apply IH].
Qed.

Lemma split_ws_cons (c : ascii) (s : text) :
  Py.split_ws (c :: s)
  = if Py.isspace c then Py.split_ws s
    else match s with
         | [] => [[c]]
         | d :: _ =>
             if Py.isspace d then [c] :: Py.split_ws s
             else match Py.split_ws s with
                  | w :: ws => (c :: w) :: ws
                  | [] => [[c]]
                  end
         end.
Proof. reflexivity. Qed.

(** The words of [s.split()] are, put together, the non-whitespace
    characters of [s]. *)
Lemma split_ws_concat (s : text) :
  concat (Py.split_ws s) = filter (fun c => negb (Py.isspace c)) s.
Proof.
  induction s as [|c s IH]; [reflexivity|].
  rewrite split_ws_cons. cbn [filter].
  destruct (Py.isspace c) eqn:Hc; cbn [negb]; [exact IH|].
  rewrite <- IH. destruct s as [|d s']; [reflexivity|].
  destruct (Py.isspace d) eqn:Hd; [reflexivity|].
  destruct (Py.split_ws (d :: s')) as [|w0 ws]; reflexivity.
Qed.

(** ** The slug *)

Section slug_alphabet.

Variable char : Type.
Variable isspace : char -> bool.
Variable lower : list char -> list char.
Variable hyphen : char.

Lemma words_cons (c : char) (s : list char) :
  Slug.words isspace (c :: s)
  = if isspace c then Slug.words isspace s
    else match s with
         | [] => [[c]]
         | d :: _ =>
             if isspace d then [c] :: Slug.words isspace s
             else match Slug.words isspace s with
                  | w :: ws => (c :: w) :: ws
                  | [] => [[c]]
                  end
         end.
Proof. reflexivity. Qed.

Lemma cut_into_space (c : char) (s : list char) (ws : list (list char)) :
  isspace c = true -> Slug.cut_into isspace s ws ->
  Slug.cut_into isspace (c :: s) ws.
Proof.
  intros Hc H. destruct H as [g Hg|g w rest ws Hg Hne Hsol Hend Hrest].
  - apply Slug.cut_blank. now constructor.
  - change (c :: g ++ w ++ rest) with ((c :: g) ++ w ++ rest).
    apply Slug.cut_word; try assumption. now constructor.
Qed.

(** A text that starts with a character of a word starts with a word. *)
Lemma cut_into_solid_head (d : char) (s : list char) (ws : list (list char)) :
  isspace d = false -> Slug.cut_into isspace (d :: s) ws ->
  exists w ws' rest,
    ws = w :: ws' /\ d :: s = w ++ rest /\ w <> [] /\ Slug.solid isspace w
    /\ Slug.word_end isspace rest /\ Slug.cut_into isspace rest ws'.
Proof.
  intros Hd H. remember (d :: s) as t eqn:Ht.
  destruct H as [g Hg|g w rest ws Hg Hne Hsol Hend Hrest].
  - subst g. inversion Hg as [|x l Hx Hl]; subst. congruence.
  - destruct g as [|x g].
    + exists w, ws, rest. now repeat split.
    + injection Ht as -> _. inversion Hg as [|y l Hy Hl]; subst. congruence.
Qed.

(** [split()] cuts a text into its words. *)
Lemma words_cut (s : list char) :
  Slug.cut_into isspace s (Slug.words isspace s).
Proof.
  induction s as [|c s IH]; [apply Slug.cut_blank; constructor|].
  rewrite words_cons. destruct (isspace c) eqn:Hc.
  - now apply cut_into_space.
  - assert (Hone : Slug.solid isspace [c]) by (constructor; [exact Hc|constructor]).
    destruct s as [|d s'].
    + apply (@Slug.cut_word _ isspace [] [c] [] []);
        [constructor|discriminate|exact Hone|exact I|].
      apply Slug.cut_blank; constructor.
    + destruct (isspace d) eqn:Hd.
      * apply (@Slug.cut_word _ isspace [] [c] (d :: s'));
          [constructor|discriminate|exact Hone|exact Hd|exact IH].
      * destruct (cut_into_solid_head Hd IH)
          as [w [ws' [rest [Hws [Hs [Hne [Hsol [Hend Hrest]]]]]]]].
        rewrite Hws, Hs.
        apply (@Slug.cut_word _ isspace [] (c :: w) rest ws');
          [constructor|discriminate|now constructor|exact Hend|exact Hrest].
Qed.

(** A run of characters with [P] that is followed by nothing or by a
    character with [Q] is fixed by the text, when no character has both. *)
Lemma run_unique (P Q : char -> Prop) :
  (forall c, P c -> Q c -> False) ->
  forall u u' x x' : list char,
    Forall P u -> Forall P u' ->
    match x with [] => True | c :: _ => Q c end ->
    match x' with [] => True | c :: _ => Q c end ->
    u ++ x = u' ++ x' -> u = u' /\ x = x'.
Proof.
  intros Hno u. induction u as [|a u IH]; intros u' x x' Hu Hu' Hx Hx' Heq.
  - destruct u' as [|b u']; [now split|].
    cbn [app] in Heq. subst x. inversion Hu'; subst.
    exfalso. eapply Hno; eassumption.
  - destruct u' as [|b u'].
    + cbn [app] in Heq. subst x'. inversion Hu; subst.
      exfalso. eapply Hno; eassumption.
    + cbn [app] in Heq. injection Heq as -> Heq.
      inversion Hu; inversion Hu'; subst.
      destruct (IH u' x x') as [-> ->]; try assumption. now split.
Qed.

Lemma gap_not_word (g w rest : list char) :
  Slug.gap isspace (g ++ w ++ rest) -> w <> [] -> Slug.solid isspace w -> False.
Proof.
  intros Hg Hne Hsol. destruct w as [|c w]; [now apply Hne|].
  unfold Slug.gap in Hg. rewrite Forall_forall in Hg.
  assert (Hc : isspace c = true).
  { apply Hg. apply in_or_app. right. now left. }
  inversion Hsol; subst. congruence.
Qed.

Lemma word_start (w rest : list char) :
  w <> [] -> Slug.solid isspace w ->
  match w ++ rest with [] => True | c :: _ => isspace c = false end.
Proof.
  intros Hne Hsol. destruct w as [|c w]; [now elim Hne|].
  now inversion Hsol.
Qed.

(** A text is cut into words in one way only. *)
Lemma cut_into_unique (s : list char) (ws ws' : list (list char)) :
  Slug.cut_into isspace s ws -> Slug.cut_into isspace s ws' -> ws' = ws.
Proof.
  intros H. revert ws'.
  induction H as [g Hg|g w rest ws Hg Hne Hsol Hend Hrest IH]; intros ws' H'.
  - inversion H' as [g' Hg' Hs Hw|g' w' rest' ws0 Hg' Hne' Hsol' Hend' Hrest' Hs Hw];
      [reflexivity|].
    subst. exfalso. exact (@gap_not_word _ _ _ Hg Hne' Hsol').
  - inversion H' as [g' Hg' Hs Hw|g' w' rest' ws0 Hg' Hne' Hsol' Hend' Hrest' Hs Hw].
    + subst. exfalso. exact (@gap_not_word _ _ _ Hg' Hne Hsol).
    + destruct (@run_unique (fun c => isspace c = true) (fun c => isspace c = false)
                  (fun c Ht Hf => eq_ind true (fun b => if b then True else False)
                                         I false (eq_trans (eq_sym Ht) Hf))
                  g' g (w' ++ rest') (w ++ rest) Hg' Hg
                  (@word_start w' rest' Hne' Hsol') (@word_start w rest Hne Hsol) Hs)
        as [-> Hmid].
      destruct (@run_unique (fun c => isspace c = false) (fun c => isspace c = true)
                  (fun c Hf Ht => eq_ind true (fun b => if b then True else False)
                                         I false (eq_trans (eq_sym Ht) Hf))
                  w' w rest' rest Hsol' Hsol Hend' Hend Hmid)
        as [-> ->].
      f_equal. now apply IH.
Qed.

Lemma cut_into_chars (s : list char) (ws : list (list char)) :
  Slug.cut_into isspace s ws ->
  forall w c, In w ws -> In c w -> isspace c = false /\ In c s.
Proof.
  induction 1 as [g Hg|g w rest ws Hg Hne Hsol Hend Hrest IH]; intros w0 c Hw Hc;
    [contradiction|].
  destruct Hw as [<-|Hw].
  - split.
    + unfold Slug.solid in Hsol. rewrite Forall_forall in Hsol. now apply Hsol.
    + apply in_or_app. right. apply in_or_app. now left.
  - destruct (IH w0 c Hw Hc) as [Hsp Hin]. split; [exact Hsp|].
    apply in_or_app. right. apply in_or_app. now right.
Qed.

Lemma join_with_hyphenated (ws : list (list char)) :
  Slug.join_with [hyphen] ws = Slug.hyphenated hyphen ws.
Proof.
  destruct ws as [|w rest]; [reflexivity|]. revert w.
  induction rest as [|x rest IH]; intros w.
  - cbn [Slug.join_with Slug.hyphenated flat_map]. now rewrite app_nil_r.
  - change (Slug.join_with [hyphen] (w :: x :: rest))
      with (w ++ [hyphen] ++ Slug.join_with [hyphen] (x :: rest)).
    rewrite IH. cbn [Slug.hyphenated flat_map app]. reflexivity.
Qed.

Lemma hyphenated_chars (ws : list (list char)) (c : char) :
  In c (Slug.hyphenated hyphen ws) ->
  c = hyphen \/ exists w, In w ws /\ In c w.
Proof.
  destruct ws as [|w rest]; [contradiction|].
  cbn [Slug.hyphenated]. rewrite in_app_iff, in_flat_map.
  intros [Hc|[x [Hx [Hc|Hc]]]].
  - right. exists w. split; [now left|exact Hc].
  - now left.
  - right. exists x. split; [now right|exact Hc].
Qed.

Lemma firstn_In (A : Type) (n : nat) (l : list A) (x : A) :
  In x (firstn n l) -> In x l.
Proof.
  intros H. rewrite <- (firstn_skipn n l). apply in_or_app. now left.
Qed.

(** Line 130 over any characters. *)
Lemma slug_generic (title : list char) :
  exists ws,
    Slug.cut_into isspace (lower title) ws
    /\ (forall ws', Slug.cut_into isspace (lower title) ws' -> ws' = ws)
    /\ Slug.slug isspace lower hyphen title
       = firstn 50 (Slug.hyphenated hyphen ws)
    /\ length (Slug.slug isspace lower hyphen title)
       = Nat.min 50 (length (Slug.hyphenated hyphen ws))
    /\ length (Slug.slug isspace lower hyphen title) <= 50
    /\ forall c,
        In c (Slug.slug isspace lower hyphen title) ->
        c = hyphen \/ (In c (lower title) /\ isspace c = false).
Proof.
  exists (Slug.words isspace (lower title)).
  pose proof (words_cut (lower title)) as Hcut.
  unfold Slug.slug. rewrite join_with_hyphenated.
  split; [exact Hcut|].
  split; [intros ws'; now apply cut_into_unique|].
  split; [reflexivity|].
  split; [apply length_firstn|].
  split; [rewrite length_firstn; apply Nat.le_min_l|].
  intros c Hc. apply firstn_In in Hc. apply hyphenated_chars in Hc.
  destruct Hc as [Hc|[w [Hw Hc]]]; [now left|]. right.
  destruct (@cut_into_chars _ _ Hcut w c Hw Hc) as [Hsp Hin]. now split.
Qed.

End slug_alphabet.

(** [slug_of] is the slug over the characters below code point 256. *)
Lemma slug_of_generic (title : text) :
  slug_of title = Slug.slug Py.isspace Py.lower "-"%char title.
Proof. reflexivity. Qed.

Lemma slug_of_chars (title : text) (c : ascii) :
  In c (slug_of title) -> Py.isupper c = false /\ Py.isspace c = false.
Proof.
  rewrite slug_of_generic. intros Hc.
  destruct (slug_generic Py.isspace Py.lower "-"%char title)
    as [ws [_ [_ [_ [_ [_ Hchars]]]]]].
  destruct (Hchars c Hc) as [->|[Hin Hsp]]; [split; reflexivity|].
  split; [exact (lower_not_upper _ _ Hin)|exact Hsp].
Qed.

(** Over the wider alphabet, an uppercase letter of the lower-cased title
    is one of the title that is none of the characters below 256. *)
Lemma wide_lower_upper (title : list Wide.char) (c : Wide.char) :
  In c (Wide.lower title) -> Wide.isupper c = true ->
  In c title /\ Wide.lower [c] = [c] /\ forall a, c <> Wide.Latin a.
Proof.
  unfold Wide.lower. rewrite in_map_iff. intros [c0 [<- Hin]] Hup.
  destruct c0 as [a| | |]; cbn [Wide.lower_char Wide.isupper] in *;
    try (split; [exact Hin|split; [reflexivity|intros a; discriminate]]).
  rewrite lower_char_not_upper in Hup. discriminate.
Qed.

Lemma wide_slug_chars (title : list Wide.char) (c : Wide.char) :
  In c (Wide.slug title) ->
  Wide.isspace c = false
  /\ (Wide.isupper c = true ->
      In c title /\ Wide.lower [c] = [c] /\ forall a, c <> Wide.Latin a).
Proof.
  unfold Wide.slug. intros Hc.
  destruct (slug_generic Wide.isspace Wide.lower (Wide.Latin "-") title)
    as [ws [_ [_ [_ [_ [_ Hchars]]]]]].
  destruct (Hchars c Hc) as [->|[Hin Hsp]].
  - split; [reflexivity|]. intros Hup. discriminate.
  - split; [exact Hsp|]. intros Hup. now apply wide_lower_upper.
Qed.

Section alphabet_map.

Variables A B : Type.
Variable f : A -> B.
Variable spaceA : A -> bool.
Variable spaceB : B -> bool.
Hypothesis space_f : forall c, spaceB (f c) = spaceA c.

Lemma words_map (s : list A) :
  Slug.words spaceB (map f s) = map (map f) (Slug.words spaceA s).
Proof.
  induction s as [|c s IH]; [reflexivity|].
  cbn [map]. rewrite !words_cons, space_f.
  destruct (spaceA c); [exact IH|].
  destruct s as [|d s']; [reflexivity|].
  cbn [map] in *. rewrite space_f. destruct (spaceA d).
  - rewrite IH. reflexivity.
  - rewrite IH. destruct (Slug.words spaceA (d :: s')); reflexivity.
Qed.

Lemma join_with_map (sep : list A) (parts : list (list A)) :
  Slug.join_with (map f sep) (map (map f) parts)
  = map f (Slug.join_with sep parts).
Proof.
  induction parts as [|x rest IH]; [reflexivity|].
  destruct rest as [|y rest']; [reflexivity|].
  change (Slug.join_with sep (x :: y :: rest'))
    with (x ++ sep ++ Slug.join_with sep (y :: rest')).
  change (Slug.join_with (map f sep) (map (map f) (x :: y :: rest')))
    with (map f x ++ map f sep
          ++ Slug.join_with (map f sep) (map (map f) (y :: rest'))).
  rewrite IH, !map_app. reflexivity.
Qed.

End alphabet_map.

(** On a title of characters below code point 256 the slug over the wider
    alphabet is [slug_of]. *)
Lemma wide_slug_of_text (title : text) :
  Wide.slug (Wide.of_text title) = Wide.of_text (slug_of title).
Proof.
  unfold Wide.slug, Slug.slug, Wide.of_text, Wide.lower.
  rewrite slug_of_generic. unfold Slug.slug, Py.lower.
  rewrite map_map.
  change (map (fun x => Wide.lower_char (Wide.Latin x)) title)
    with (map (fun x => Wide.Latin (Py.lower_char x)) title).
  rewrite <- (map_map Py.lower_char Wide.Latin title).
  rewrite (@words_map ascii Wide.char Wide.Latin Py.isspace Wide.isspace
             (fun c => eq_refl)).
  change [Wide.Latin "-"] with (map Wide.Latin ["-"%char]).
  rewrite join_with_map. apply firstn_map.
Qed.

(** C9, as the code has it.  Whatever the characters of a title are, with
    [isspace] the whitespace test of [split()] and [lower] what
    [str.lower] does: the lower-cased title is cut into words in one way
    only, and the slug is the first 50 characters of those words with a
    hyphen between them, a plain prefix, so that its length is the smaller
    of 50 and the hyphenated length; each of its characters is a hyphen or
    a character of the lower-cased title that is not whitespace.  Hence
    for a title of characters below code point 256 the slug has no
    uppercase letter and no whitespace; beyond them it has no whitespace
    either, and an uppercase letter only where the title has one that
    [str.lower] leaves as it is. *)
Theorem slug_spec :
  (forall (char : Type) (isspace : char -> bool)
          (lower : list char -> list char) (hyphen : char) (title : list char),
      exists ws,
        Slug.cut_into isspace (lower title) ws
        /\ (forall ws', Slug.cut_into isspace (lower title) ws' -> ws' = ws)
        /\ Slug.slug isspace lower hyphen title
           = firstn 50 (Slug.hyphenated hyphen ws)
        /\ length (Slug.slug isspace lower hyphen title)
           = Nat.min 50 (length (Slug.hyphenated hyphen ws))
        /\ length (Slug.slug isspace lower hyphen title) <= 50
        /\ forall c,
            In c (Slug.slug isspace lower hyphen title) ->
            c = hyphen \/ (In c (lower title) /\ isspace c = false))
  /\ (forall title : text,
        slug_of title = Slug.slug Py.isspace Py.lower "-"%char title
        /\ forall c,
            In c (slug_of title) -> Py.isupper c = false /\ Py.isspace c = false)
  /\ (forall (title : list Wide.char) (c : Wide.char),
        In c (Wide.slug title) ->
        Wide.isspace c = false
        /\ (Wide.isupper c = true ->
            In c title /\ Wide.lower [c] = [c] /\ forall a, c <> Wide.Latin a)).
Proof.
  split; [intros char isspace lower hyphen title; apply slug_generic|].
  split; [|exact wide_slug_chars].
  intros title. split; [apply slug_of_generic|apply slug_of_chars].
Qed.

Example slug_cut_mid_word :
  slug_of "Senior Principal Software Engineering Manager, Payments Platform"
  = "senior-principal-software-engineering-manager,-pay".
Proof. reflexivity. Qed.

Example slug_spec_witness :
  (Py.isupper "g"%char = false /\ Py.isspace "g"%char = false)
  /\ Wide.isspace Wide.MathBoldB = false
  /\ In Wide.MathBoldB title_bold.
Proof.
  split.
  - apply (proj2 (proj1 (proj2 slug_spec) "Data Engineer") "g"%char).
    vm_compute. do 7 right. left. reflexivity.
  - assert (Hin : In Wide.MathBoldB (Wide.slug title_bold))
      by (vm_compute; right; left; reflexivity).
    destruct (proj2 (proj2 slug_spec) title_bold Wide.MathBoldB Hin) as [Hsp Hup].
    split; [exact Hsp|]. exact (proj1 (Hup eq_refl)).
Defined.

(** C9 as stated fails: the title that starts with U+1D400 and U+1D401,
    which [str.lower] leaves as they are, has a slug with uppercase
    letters. *)
Lemma slug_keeps_uppercase :
  Wide.slug title_bold
  = [Wide.MathBoldA; Wide.MathBoldB] ++ Wide.of_text "-engineer"
  /\ Wide.isupper Wide.MathBoldA = true
  /\ ~ (forall c, In c (Wide.slug title_bold) -> Wide.isupper c = false).
Proof.
  split; [reflexivity|]. split; [reflexivity|].
  intros H. specialize (H Wide.MathBoldA (or_introl eq_refl)). discriminate.
Qed.

(** ** The content formatter's split *)

(** The state after a run of the loop from any state. *)
Lemma split_fold_req (lines : list text) (st : split_state) :
  st_section st = req ->
  fold_left split_step lines st
  = {| st_section := req;
       description_lines := description_lines st;
       requirements_lines := requirements_lines st ++ filter not_separator lines |}.
Proof.
  revert st. induction lines as [|l lines IH]; intros [sec d r] Hsec;
    simpl in Hsec; subst sec.
  - simpl. now rewrite app_nil_r.
  - simpl. unfold split_step at 2, not_separator. simpl.
    destruct (is_separator l); simpl; rewrite IH by reflexivity; simpl.
    + reflexivity.
    + now rewrite <- app_assoc.
Qed.

Lemma split_fold_desc (pre : list text) (st : split_state) :
  st_section st = desc ->
  forallb not_separator pre = true ->
  fold_left split_step pre st
  = {| st_section := desc;
       description_lines := description_lines st ++ pre;
       requirements_lines := requirements_lines st |}.
Proof.
  revert st. induction pre as [|l pre IH]; intros [sec d r] Hsec Hpre;
    simpl in Hsec; subst sec.
  - simpl. now rewrite app_nil_r.
  - simpl in Hpre. apply andb_true_iff in Hpre. destruct Hpre as [Hl Hpre].
    unfold not_separator in Hl. apply negb_true_iff in Hl.
    simpl. unfold split_step at 2. rewrite Hl. simpl.
    rewrite IH by (reflexivity || assumption). simpl. now rewrite <- app_assoc.
Qed.

Lemma split_lines_app (p q : list text) :
  split_lines (p ++ q) = fold_left split_step q (split_lines p).
Proof. unfold split_lines. apply fold_left_app. Qed.

(** C2, as the code has it. For every sequence of cleaned lines: the lines
    before the first line that contains "requirement" (in any case) are the
    description; that line is in neither output; of the lines after it,
    those that do not contain "requirement" are the requirements, in
    order, and those that do are dropped like the first.  Without such a
    line every line is description and the requirements are empty.  The
    loop's mode never goes back: once it is [req] after some prefix, it is
    [req] after every longer one. *)
Theorem split_lines_spec (lines : list text) :
  (forall pre s post,
      lines = pre ++ s :: post ->
      forallb not_separator pre = true ->
      is_separator s = true ->
      description_lines (split_lines lines) = pre
      /\ requirements_lines (split_lines lines) = filter not_separator post
      /\ (forallb not_separator post = true ->
          requirements_lines (split_lines lines) = post))
  /\ (forallb not_separator lines = true ->
      description_lines (split_lines lines) = lines
      /\ requirements_lines (split_lines lines) = [])
  /\ (forall p q, lines = p ++ q ->
      st_section (split_lines p) = req -> st_section (split_lines lines) = req).
Proof.
  split; [|split].
  - intros pre s post -> Hpre Hs.
    rewrite split_lines_app. unfold split_lines at 1 2 3.
    rewrite (split_fold_desc pre split_init eq_refl Hpre). simpl.
    unfold split_step at 2 4 6. rewrite Hs. simpl.
    rewrite split_fold_req by reflexivity. simpl.
    split; [reflexivity|]. split; [reflexivity|].
    intros Hpost. clear -Hpost. induction post as [|l post IH]; [reflexivity|].
    simpl in *. apply andb_true_iff in Hpost. destruct Hpost as [-> Hpost].
    f_equal. now apply IH.
  - intros Hall. unfold split_lines.
    rewrite (split_fold_desc lines split_init eq_refl Hall). now split.
  - intros p q -> Hp. rewrite split_lines_app.
    rewrite split_fold_req by exact Hp. reflexivity.
Qed.

Example split_lines_spec_witness :
  let pre : list text := ["We build payment systems" : text] in
  let s : text := "Key Requirements" in
  let post : list text := ["BSc in Computer Science" : text; "Two years of experience" : text] in
  description_lines (split_lines (pre ++ s :: post)) = pre
  /\ requirements_lines (split_lines (pre ++ s :: post)) = filter not_separator post
  /\ (forallb not_separator post = true ->
      requirements_lines (split_lines (pre ++ s :: post)) = post).
Proof.
  cbv zeta.
  exact (proj1 (split_lines_spec _) ["We build payment systems" : text]
               ("Key Requirements" : text)
               ["BSc in Computer Science" : text; "Two years of experience" : text]
               eq_refl eq_refl eq_refl).
Defined.

(** C2 as stated fails: a line after the separator that itself contains
    "requirement" does not go to the requirements, it is dropped. *)
Lemma split_lines_drops_later_separator :
  let pre : list text := ["We build payment systems" : text] in
  let s : text := "Requirements:" in
  let post : list text := ["Minimum requirement: BSc" : text; "Two years of experience" : text] in
  forallb not_separator pre = true
  /\ is_separator s = true
  /\ requirements_lines (split_lines (pre ++ s :: post)) = ["Two years of experience" : text]
  /\ requirements_lines (split_lines (pre ++ s :: post)) <> post.
Proof.
  cbv zeta. repeat split; try reflexivity.
  vm_compute. discriminate.
Qed.

(** ** Searching and cutting strings *)

Lemma startswith_app (p s : text) :
  Py.startswith p s = true <-> exists r, s = p ++ r.
Proof.
  revert s. induction p as [|a p IH]; intros s; simpl.
  - split; [intros _; now exists s|reflexivity].
  - destruct s as [|b s]; [split; [discriminate|intros [r Hr]; discriminate]|].
    rewrite andb_true_iff, Ascii.eqb_eq, IH. split.
    + intros [-> [r ->]]. now exists r.
    + intros [r Hr]. injection Hr as -> ->. split; [reflexivity|now exists r].
Qed.

Lemma find_unfold (sub s : text) :
  Py.find sub s
  = if Py.startswith sub s then Some 0
    else match s with
         | [] => None
         | _ :: s' => option_map S (Py.find sub s')
         end.
Proof. destruct s; reflexivity. Qed.

(** [find] gives the leftmost occurrence: [sub] is at [i] and at no
    earlier index. *)
Lemma find_Some (sub s : text) (i : nat) :
  Py.find sub s = Some i ->
  s = firstn i s ++ sub ++ skipn (i + length sub) s
  /\ forall j, j < i -> Py.startswith sub (skipn j s) = false.
Proof.
  revert i. induction s as [|a s IH]; intros i; rewrite find_unfold.
  - destruct (Py.startswith sub []) eqn:Hs; [|discriminate].
    intros [= <-]. apply startswith_app in Hs. destruct Hs as [r Hr].
    symmetry in Hr. apply app_eq_nil in Hr. destruct Hr as [-> ->].
    split; [reflexivity|intros j Hj; lia].
  - destruct (Py.startswith sub (a :: s)) eqn:Hs.
    + intros [= <-]. apply startswith_app in Hs. destruct Hs as [r Hr].
      split; [|intros j Hj; lia].
      rewrite Hr at 3. simpl firstn. simpl "+".
      rewrite skipn_app, skipn_all, Nat.sub_diag. simpl. now rewrite Hr.
    + destruct (Py.find sub s) as [i'|] eqn:Hf; [|discriminate].
      intros [= <-]. destruct (IH i' eq_refl) as [Heq Hleft].
      split.
      * simpl. f_equal. exact Heq.
      * intros [|j] Hj; [exact Hs|]. simpl. apply Hleft. lia.
Qed.

Lemma find_None (sub s : text) :
  Py.find sub s = None -> forall j, Py.startswith sub (skipn j s) = false.
Proof.
  induction s as [|a s IH]; rewrite find_unfold.
  - destruct (Py.startswith sub []) eqn:Hs; [discriminate|].
    intros _ j. now rewrite skipn_nil.
  - destruct (Py.startswith sub (a :: s)) eqn:Hs; [discriminate|].
    destruct (Py.find sub s) eqn:Hf; [discriminate|].
    intros _ [|j]; [exact Hs|]. simpl. now apply IH.
Qed.

Lemma find_occurs (sub s : text) (i : nat) :
  Py.find sub s = Some i -> Py.startswith sub (skipn i s) = true.
Proof.
  revert i. induction s as [|a s IH]; intros i; rewrite find_unfold.
  - destruct (Py.startswith sub []) eqn:Hs; [|discriminate]. now intros [= <-].
  - destruct (Py.startswith sub (a :: s)) eqn:Hs; [now intros [= <-]|].
    destruct (Py.find sub s) as [i'|]; [|discriminate].
    intros [= <-]. simpl. now apply IH.
Qed.

Lemma find_bound (sub s : text) (i : nat) :
  Py.find sub s = Some i -> i + length sub <= length s.
Proof.
  intros Hf. destruct (find_Some _ _ Hf) as [Heq _].
  assert (Hi : i <= length s).
  { destruct (Nat.le_gt_cases i (length s)) as [|Hgt]; [assumption|].
    exfalso. rewrite firstn_all2, skipn_all2 in Heq by lia.
    apply (f_equal (@length ascii)) in Heq. rewrite !length_app in Heq.
    simpl in Heq.
    assert (length sub = 0) by lia.
    destruct sub; [|discriminate].
    rewrite find_unfold in Hf. simpl in Hf. injection Hf as <-. lia. }
  apply (f_equal (@length ascii)) in Heq.
  rewrite !length_app, length_firstn, length_skipn in Heq. lia.
Qed.

Lemma split_fuel_None (fuel : nat) (sep s : text) :
  Py.find sep s = None -> Py.split_fuel fuel sep s = [s].
Proof. intros Hf. destruct fuel; simpl; [reflexivity|now rewrite Hf]. Qed.

(** The count [split] starts with is never used up: any larger one gives
    the same parts. *)
Lemma split_fuel_enough (sep : text) (fuel1 fuel2 : nat) (s : text) :
  sep <> [] -> length s <= fuel1 -> length s <= fuel2 ->
  Py.split_fuel fuel1 sep s = Py.split_fuel fuel2 sep s.
Proof.
  intros Hsep. revert fuel2 s.
  assert (Hnil : forall f, Py.split_fuel f sep [] = [[]]).
  { intros f. apply split_fuel_None. rewrite find_unfold.
    destruct sep; [contradiction|reflexivity]. }
  induction fuel1 as [|f1 IH]; intros fuel2 s H1 H2.
  - destruct s; [|simpl in H1; lia]. now rewrite !Hnil.
  - destruct fuel2 as [|f2].
    + destruct s; [|simpl in H2; lia]. now rewrite !Hnil.
    + simpl. destruct (Py.find sep s) as [i|] eqn:Hf; [|reflexivity].
      f_equal. apply find_bound in Hf.
      assert (0 < length sep) by (destruct sep; [contradiction|simpl; lia]).
      apply IH; rewrite length_skipn; lia.
Qed.

(** The first two parts of [s.split(sep)]. *)
Lemma split_first_parts (sep s : text) :
  sep <> [] ->
  match Py.find sep s with
  | None => Py.split sep s = [s]
  | Some i =>
      let rest := skipn (i + length sep) s in
      exists more,
        Py.split sep s
        = firstn i s
          :: match Py.find sep rest with
             | Some j => firstn j rest
             | None => rest
             end
          :: more
  end.
Proof.
  intros Hsep. unfold Py.split.
  assert (Hlen : 0 < length sep) by (destruct sep; [contradiction|simpl; lia]).
  destruct (Py.find sep s) as [i|] eqn:Hf; [|now apply split_fuel_None].
  cbv zeta. pose proof (find_bound _ _ Hf) as Hb.
  destruct (length s) as [|f] eqn:Hs; [lia|].
  simpl. rewrite Hf.
  set (rest := skipn (i + length sep) s).
  destruct (Py.find sep rest) as [j|] eqn:Hr.
  - pose proof (find_bound _ _ Hr) as Hb'.
    assert (Hrl : length rest = S f - (i + length sep))
      by (unfold rest; rewrite length_skipn; lia).
    destruct f as [|f']; [lia|].
    simpl. rewrite Hr. eexists. reflexivity.
  - rewrite split_fuel_None by exact Hr. exists []. reflexivity.
Qed.

(** ** Stripped text *)

Lemma lstrip_no_lead (s : text) : no_lead (Py.lstrip s).
Proof.
  induction s as [|c s IH]; simpl; [exact I|].
  destruct (Py.isspace c) eqn:Hc; [exact IH|exact Hc].
Qed.

Lemma lstrip_fix (s : text) : no_lead s -> Py.lstrip s = s.
Proof. destruct s as [|c s]; simpl; [reflexivity|]. now intros ->. Qed.

Lemma rstrip_cons_nonspace (c : ascii) (t : text) :
  Py.isspace c = false -> Py.rstrip (c :: t) = c :: Py.rstrip t.
Proof. intros Hc. simpl. destruct (Py.rstrip t); [rewrite Hc|]; reflexivity. Qed.

Lemma rstrip_idem (s : text) : Py.rstrip (Py.rstrip s) = Py.rstrip s.
Proof.
  induction s as [|c s IH]; [reflexivity|].
  simpl. destruct (Py.rstrip s) as [|d r] eqn:Hr.
  - destruct (Py.isspace c) eqn:Hc; [reflexivity|]. simpl. now rewrite Hc.
  - change (Py.rstrip (c :: d :: r)) with
      (match Py.rstrip (d :: r) with
       | [] => if Py.isspace c then [] else [c]
       | (_ :: _) as r' => c :: r'
       end).
    now rewrite IH.
Qed.

Lemma rstrip_no_lead (s : text) : no_lead s -> no_lead (Py.rstrip s).
Proof.
  destruct s as [|c t]; [trivial|]. simpl no_lead at 1. intros Hc.
  rewrite rstrip_cons_nonspace by exact Hc. exact Hc.
Qed.

Lemma strip_fix (s : text) : no_lead s -> Py.rstrip s = s -> Py.strip s = s.
Proof. intros Hl Hr. unfold Py.strip. now rewrite lstrip_fix, Hr. Qed.

Lemma strip_stripped (s : text) :
  no_lead (Py.strip s) /\ Py.rstrip (Py.strip s) = Py.strip s.
Proof.
  unfold Py.strip. split; [|apply rstrip_idem].
  apply rstrip_no_lead, lstrip_no_lead.
Qed.

Lemma rstrip_app (x y : text) :
  y <> [] -> Py.rstrip y = y -> Py.rstrip (x ++ y) = x ++ y.
Proof.
  intros Hy Hr. induction x as [|a x IH]; [exact Hr|].
  simpl. rewrite IH. destruct (x ++ y) eqn:Hxy; [|reflexivity].
  apply app_eq_nil in Hxy. destruct Hxy as [_ ->]. contradiction.
Qed.

Lemma no_lead_app (x y : text) : x <> [] -> no_lead x -> no_lead (x ++ y).
Proof. destruct x; [contradiction|trivial]. Qed.

Lemma join_stripped (sep : text) (parts : list text) :
  Forall stripped_piece parts ->
  no_lead (Py.join sep parts)
  /\ Py.rstrip (Py.join sep parts) = Py.join sep parts
  /\ (parts <> [] -> Py.join sep parts <> []).
Proof.
  induction 1 as [|x rest [Hne [Hl Hr]] Hrest IH]; [now repeat split|].
  simpl. destruct rest as [|y rest'].
  - split; [assumption|split; [assumption|intros _; assumption]].
  - destruct IH as [_ [IHr IHne]].
    assert (Hj : Py.join sep (y :: rest') <> []) by (apply IHne; discriminate).
    split; [now apply no_lead_app|]. split.
    + rewrite app_assoc. rewrite rstrip_app; [reflexivity|exact Hj|exact IHr].
    + intros _ Hnil. apply app_eq_nil in Hnil. now destruct Hnil.
Qed.

Lemma truthy_nonempty (s : text) : Py.truthy s = true <-> s <> [].
Proof. destruct s; simpl; split; congruence. Qed.

(** [get_text(sep, strip=True)] has no whitespace at either end, so
    stripping it again changes nothing. *)
Lemma get_text_stripped (sep : text) (n : node) :
  Py.strip (Bs.get_text sep n) = Bs.get_text sep n.
Proof.
  unfold Bs.get_text.
  assert (Hall : Forall stripped_piece
                   (filter Py.truthy (map Py.strip (Bs.strings n)))).
  { apply Forall_forall. intros p Hp. apply filter_In in Hp.
    destruct Hp as [Hin Ht]. apply in_map_iff in Hin.
    destruct Hin as [s [<- _]]. destruct (strip_stripped s) as [Hl Hr].
    split; [now apply truthy_nonempty|now split]. }
  destruct (join_stripped sep Hall) as [Hl [Hr _]].
  now apply strip_fix.
Qed.

(** ** Title and company *)

(** C4, as the code has it. For every page with a first [h1], with
    [heading] its text: when " at " does not occur in [heading], the title
    is the whole heading and the company is empty; when it does, first at
    index [i], the title is the part before index [i], stripped, and the
    company is the part after that occurrence up to the next occurrence of
    " at " (up to the end when there is none), stripped. *)
Theorem title_company_spec (soup : node) (h1 : Bs.element) :
  Bs.find (Bs.is_tag "h1") soup = Some h1 ->
  let heading := Bs.get_text " " (fst h1) in
  match Py.find AT heading with
  | None =>
      (forall j, ~ occurs AT heading j)
      /\ title_company soup = (heading, [])
  | Some i =>
      let rest := skipn (i + 4) heading in
      occurs AT heading i
      /\ (forall j, j < i -> ~ occurs AT heading j)
      /\ heading = firstn i heading ++ AT ++ rest
      /\ title_company soup
         = (Py.strip (firstn i heading),
            Py.strip match Py.find AT rest with
                     | Some j => firstn j rest
                     | None => rest
                     end)
  end.
Proof.
  intros Hh1. cbv zeta. unfold title_company, occurs. rewrite Hh1.
  set (heading := Bs.get_text " " (fst h1)).
  assert (Hsep : AT <> []) by discriminate.
  pose proof (split_first_parts heading Hsep) as Hsplit.
  change (list_ascii_of_string " at ") with AT.
  destruct (Py.find AT heading) as [i|] eqn:Hf.
  - cbv zeta in Hsplit. destruct Hsplit as [more ->].
    destruct (find_Some _ _ Hf) as [Hcut Hleft].
    split; [exact (find_occurs _ _ Hf)|].
    split; [intros j Hj; rewrite (Hleft j Hj); discriminate|].
    split; [exact Hcut|reflexivity].
  - split; [intros j; rewrite (find_None _ _ Hf j); discriminate|].
    rewrite Hsplit. simpl. unfold heading. now rewrite get_text_stripped.
Qed.

Example title_company_spec_witness :
  title_company page_full = ("Data Engineer" : text, "Acme Bank" : text).
Proof.
  pose proof (@title_company_spec page_full
                (Tag "h1" [] [txt " Data Engineer at Acme Bank "],
                 skipn 1 (Bs.descendants page_full))
                eq_refl) as H.
  vm_compute in H. destruct H as [_ [_ [_ H]]]. vm_compute. exact H.
Defined.

(** C4 as stated fails: with a second " at " in the heading the company is
    the part between the two occurrences, not the whole remainder after
    the first. *)
Lemma title_company_second_at :
  Bs.find (Bs.is_tag "h1") page_two_ats
  = Some (Tag "h1" [] [txt "Engineer at Bank at Home"],
          skipn 1 (Bs.descendants page_two_ats))
  /\ Py.find AT "Engineer at Bank at Home" = Some 8
  /\ title_company page_two_ats = ("Engineer" : text, "Bank" : text)
  /\ snd (title_company page_two_ats)
     <> Py.strip (skipn (8 + 4) "Engineer at Bank at Home").
Proof.
  repeat split; try reflexivity. vm_compute. discriminate.
Qed.

(** ** The rejection rule and the record *)

(** [extract_job_data] in terms of its contact step: every other step is
    a total function of the page. *)
Lemma extract_job_data_cases (soup : node) :
  match application_contact soup with
  | Raised e => extract_job_data soup = Raised e
  | Returned (application_email, application_url) =>
      match application_email, application_url with
      | [], [] => extract_job_data soup = Returned None
      | _, _ =>
          exists r,
            extract_job_data soup = Returned (Some r)
            /\ keys r = FIELDS
            /\ Bs.lookup "application_email" r = Some application_email
            /\ Bs.lookup "application_url" r = Some application_url
      end
  end.
Proof.
  unfold extract_job_data.
  destruct (title_company soup) as [title company].
  destruct (description_requirements soup) as [description requirements].
  destruct (application_contact soup) as [[email url]|e]; [|reflexivity].
  destruct email as [|c email]; destruct url as [|d url]; simpl;
    solve [reflexivity | eexists; repeat split].
Qed.

Lemma extract_job_data_fields (soup : node) (r : record) :
  extract_job_data soup = Returned (Some r) -> keys r = FIELDS.
Proof.
  intros H. pose proof (extract_job_data_cases soup) as Hc.
  destruct (application_contact soup) as [[email url]|e]; [|congruence].
  destruct email, url; try congruence;
    destruct Hc as [r' [Hr' [Hk _]]]; congruence.
Qed.

(** X21. The rejection rule on the pages where the contact step
    completes: when lines 117-125 give an email and a URL,
    [extract_job_data] returns [None] exactly when both are empty, and
    returns a record carrying them when one is not; when the contact step
    raises, so does [extract_job_data] and nothing is returned. *)
Theorem extract_job_data_none_iff (soup : node) :
  match application_contact soup with
  | Returned (application_email, application_url) =>
      (extract_job_data soup = Returned None
       <-> application_email = [] /\ application_url = [])
      /\ (application_email <> [] \/ application_url <> [] ->
          exists r,
            extract_job_data soup = Returned (Some r)
            /\ Bs.lookup "application_email" r = Some application_email
            /\ Bs.lookup "application_url" r = Some application_url)
  | Raised e => extract_job_data soup = Raised e
  end.
Proof.
  pose proof (extract_job_data_cases soup) as Hc.
  destruct (application_contact soup) as [[email url]|e]; [|exact Hc].
  destruct email as [|c email]; destruct url as [|d url].
  - split; [split; [now split|intros _; exact Hc]|].
    intros [H|H]; contradiction.
  - destruct Hc as [r [Hr [_ [He Hu]]]]. split.
    + split; [rewrite Hr; discriminate|intros [_ H]; discriminate].
    + intros _. now exists r.
  - destruct Hc as [r [Hr [_ [He Hu]]]]. split.
    + split; [rewrite Hr; discriminate|intros [H _]; discriminate].
    + intros _. now exists r.
  - destruct Hc as [r [Hr [_ [He Hu]]]]. split.
    + split; [rewrite Hr; discriminate|intros [H _]; discriminate].
    + intros _. now exists r.
Qed.

Example extract_job_data_none_iff_witness :
  (extract_job_data page_full = Returned None
   <-> ("hr@acme.co.ke" : text) = [] /\ ("https://www.myjobmag.com/apply/77" : text) = [])
  /\ exists r,
      extract_job_data page_full = Returned (Some r)
      /\ Bs.lookup "application_email" r = Some ("hr@acme.co.ke" : text)
      /\ Bs.lookup "application_url" r = Some ("https://www.myjobmag.com/apply/77" : text).
Proof.
  pose proof (extract_job_data_none_iff page_full) as H.
  change (application_contact page_full)
    with (Returned (("hr@acme.co.ke" : text), ("https://www.myjobmag.com/apply/77" : text)))
    in H.
  cbv beta iota in H. destruct H as [Hiff Hrec].
  split; [exact Hiff|]. apply Hrec. left. discriminate.
Defined.

Example extract_job_data_no_contact :
  extract_job_data page_no_contact = Returned None.
Proof. reflexivity. Qed.

(** ** Pages on which extraction raises *)

(** C1 fails on the code, by the defect of C3: on a page whose application
    heading is followed by no [div], the email and the URL are both still
    empty (line 117) when line 120 raises.  On [page_heading_only], which
    holds no address and no link at all, the rule of line 127 would give
    [None]; [extract_job_data] raises and returns neither [None] nor a
    record. *)
Theorem extract_job_data_nothing_returned :
  extract_email (Bs.get_text " " page_heading_only) = []
  /\ Bs.find_all (fun n => Bs.is_tag "a" n && has_href n) page_heading_only = []
  /\ Bs.find_all (Bs.is_tag "div") page_heading_only = []
  /\ extract_job_data page_heading_only = Raised AttributeError
  /\ extract_job_data page_heading_only <> Returned None
  /\ forall r, extract_job_data page_heading_only <> Returned (Some r).
Proof.
  split; [reflexivity|]. split; [reflexivity|]. split; [reflexivity|].
  assert (H : extract_job_data page_heading_only = Raised AttributeError)
    by reflexivity.
  split; [exact H|]. rewrite H. split; [discriminate|intros r; discriminate].
Qed.

(** C3 fails on the code: on a page whose application heading is followed
    by no [div], [find_next('div')] is [None] and reading its text raises;
    no record and no [None] is returned. *)
Theorem extract_job_data_raises :
  Bs.find is_method_heading page_no_div
  = Some (Tag "h2" [attr "id" "application-method"] [txt "Method of Application"],
          [txt "Method of Application";
           Tag "p" [] [txt "Send your CV to hr@acme.co.ke"];
           txt "Send your CV to hr@acme.co.ke"])
  /\ extract_job_data page_no_div = Raised AttributeError.
Proof. split; reflexivity. Qed.

(** In a run the exception is caught by [scrape_job]: the page is skipped. *)
Example scrape_job_skips_raising_page :
  scrape_job (serve listing_mixed page_no_div) 1 (resolve "/job/1") = None.
Proof. reflexivity. Qed.

(** The only pages on which [extract_job_data] raises are those. *)
Lemma extract_job_data_raises_iff (soup : node) (e : exn) :
  extract_job_data soup = Raised e
  <-> exists method_block,
        Bs.find is_method_heading soup = Some method_block
        /\ Bs.find_next (Bs.is_tag "div") method_block = None
        /\ e = AttributeError.
Proof.
  pose proof (extract_job_data_cases soup) as Hc.
  unfold application_contact in Hc.
  destruct (Bs.find is_method_heading soup) as [mb|] eqn:Hmb.
  - destruct (Bs.find_next (Bs.is_tag "div") mb) as [d|] eqn:Hd.
    + assert (Hno : forall x, extract_job_data soup <> Raised x).
      { intros x Hx. rewrite Hx in Hc.
        destruct (Bs.find_in _ (fst d)); destruct (extract_email _);
          try destruct (resolve _); try discriminate;
          destruct Hc as [r [Hr _]]; discriminate. }
      split; [intros H; now apply Hno in H|].
      intros [mb' [[= <-] [H _]]]. congruence.
    + rewrite Hc. split.
      * intros [= <-]. now exists mb.
      * intros [mb' [_ [_ ->]]]. reflexivity.
  - simpl in Hc. rewrite Hc. split; [discriminate|].
    intros [mb' [H _]]. discriminate.
Qed.

(** ** The link collector *)

Lemma first_links_cons (selector : list Bs.compound) (rest : list (list Bs.compound))
      (soup : node) :
  (hrefs_selected selector soup <> [] ->
   first_links (selector :: rest) soup = hrefs_selected selector soup)
  /\ (hrefs_selected selector soup = [] ->
      first_links (selector :: rest) soup = first_links rest soup).
Proof.
  simpl. destruct (hrefs_selected selector soup); split; congruence.
Qed.

(** Induction over a markup tree, with the property known of every child
    of a tag. *)
Section node_induction.

Variable P : node -> Prop.
Hypothesis P_string : forall s, P (NavigableString s).
Hypothesis P_comment : forall s, P (Comment s).
Hypothesis P_tag : forall name attrs cs, Forall P cs -> P (Tag name attrs cs).

Fixpoint node_tree_ind (n : node) : P n :=
  match n with
  | NavigableString s => P_string s
  | Comment s => P_comment s
  | Tag name attrs cs =>
      P_tag name attrs
        ((fix all (l : list node) : Forall P l :=
            match l with
            | [] => Forall_nil P
            | c :: l' => Forall_cons c (node_tree_ind c) (all l')
            end) cs)
  end.

End node_induction.

Lemma flat_map_incl {A B : Type} (f g : A -> list B) (l : list A) :
  Forall (fun x => incl (f x) (g x)) l -> incl (flat_map f l) (flat_map g l).
Proof.
  induction 1 as [|x l Hx _ IH]; simpl; [apply incl_refl|].
  apply incl_app; [now apply incl_appl|now apply incl_appr].
Qed.

(** Dropping the outer compounds of a selector loses no match. *)
Lemma select_at_last (c : Bs.compound) (cs : list Bs.compound) (n : node) :
  forall ancestors,
    incl (Bs.select_at (c :: cs) ancestors n) (Bs.select_at [c] ancestors n).
Proof.
  induction n as [s|s|name attrs children IH] using node_tree_ind;
    intros ancestors; try apply incl_refl.
  cbn [Bs.select_at]. apply incl_app.
  - apply incl_appl. unfold Bs.matches_selector. cbn [Bs.under].
    destruct (Bs.matches_compound c (Tag name attrs children)); simpl;
      [|apply incl_nil_l].
    destruct (Bs.under cs ancestors); [apply incl_refl|apply incl_nil_l].
  - apply incl_appr. apply flat_map_incl.
    apply Forall_forall. intros child Hchild.
    rewrite Forall_forall in IH. now apply IH.
Qed.

Lemma select_last (outer : list Bs.compound) (c : Bs.compound) (soup : node) :
  incl (Bs.select (outer ++ [c]) soup) (Bs.select [c] soup).
Proof.
  destruct soup as [s|s|name attrs children]; try apply incl_refl.
  unfold Bs.select. rewrite rev_unit. cbn [rev app].
  apply flat_map_incl. apply Forall_forall. intros child _.
  apply select_at_last.
Qed.

(** [sub in s]: [s] holds [sub] somewhere. *)
Lemma contains_iff (sub s : text) :
  Py.contains sub s = true <-> exists pre post, s = pre ++ sub ++ post.
Proof.
  unfold Py.contains. destruct (Py.find sub s) as [i|] eqn:Hf.
  - split; [intros _|reflexivity].
    exists (firstn i s), (skipn (i + length sub) s).
    exact (proj1 (find_Some _ _ Hf)).
  - split; [discriminate|]. intros [pre [post ->]].
    pose proof (find_None _ _ Hf (length pre)) as Hno.
    rewrite skipn_app, skipn_all, Nat.sub_diag in Hno. cbn [skipn app] in Hno.
    assert (Hyes : Py.startswith sub (sub ++ post) = true)
      by (apply startswith_app; now exists post).
    congruence.
Qed.

Lemma anchor_hrefs_In (test : text -> bool) (nodes : list node) (link : text) :
  In link (anchor_hrefs test nodes)
  <-> test link = true /\ exists a, In a nodes /\ anchor_to link a.
Proof.
  unfold anchor_hrefs. rewrite in_flat_map. split.
  - intros [n [Hn Hin]]. destruct n as [t|t|name attrs cs]; try contradiction.
    destruct (String.eqb "a" name) eqn:Hname; [|contradiction].
    apply String.eqb_eq in Hname. subst name.
    destruct (Bs.lookup "href" attrs) as [h|] eqn:Hh; [|contradiction].
    destruct (test h) eqn:Ht; [|contradiction].
    destruct Hin as [<-|[]]. split; [exact Ht|].
    exists (Tag "a" attrs cs). split; [exact Hn|]. now exists attrs, cs.
  - intros [Ht [a [Ha [attrs [cs [-> Hh]]]]]].
    exists (Tag "a" attrs cs). split; [exact Ha|].
    cbn [String.eqb Ascii.eqb Bool.eqb]. rewrite Hh, Ht. now left.
Qed.

(** The scan of line 179 over a list of nodes. *)
Lemma scan_anchor_hrefs (nodes : list node) :
  filter (Py.contains "/job/")
         (map href_of (filter (fun n => Bs.is_tag "a" n && has_href n) nodes))
  = anchor_hrefs (Py.contains "/job/") nodes.
Proof.
  induction nodes as [|n nodes IH]; [reflexivity|].
  cbn [filter anchor_hrefs flat_map]. fold (anchor_hrefs (Py.contains "/job/") nodes).
  destruct n as [t|t|name attrs cs]; try exact IH.
  cbn [Bs.is_tag]. destruct (String.eqb "a" name); [|exact IH]. cbn [andb].
  assert (Hhas : has_href (Tag name attrs cs)
                 = match Bs.lookup "href" attrs with
                   | Some _ => true
                   | None => false
                   end) by reflexivity.
  rewrite Hhas. destruct (Bs.lookup "href" attrs) as [h|] eqn:Hh; [|exact IH].
  assert (Hof : href_of (Tag name attrs cs) = h)
    by (unfold href_of; cbn [Bs.get]; now rewrite Hh).
  cbn [map filter]. rewrite Hof.
  destruct (Py.contains "/job/" h); cbn [app]; [f_equal|]; exact IH.
Qed.

(** A selector of one compound matches the descendants that the compound
    matches, wherever they are. *)
Lemma select_at_single (c : Bs.compound) (n : node) :
  forall ancestors,
    Bs.select_at [c] ancestors n
    = filter (Bs.matches_compound c) (n :: Bs.descendants n).
Proof.
  induction n as [t|t|name attrs cs IH] using node_tree_ind; intros ancestors.
  - cbn [Bs.select_at Bs.descendants filter]. unfold Bs.matches_compound.
    reflexivity.
  - cbn [Bs.select_at Bs.descendants filter]. unfold Bs.matches_compound.
    reflexivity.
  - cbn [Bs.select_at Bs.descendants filter Bs.matches_selector Bs.under].
    rewrite andb_true_r.
    assert (Hcs : forall above,
               flat_map (Bs.select_at [c] above) cs
               = filter (Bs.matches_compound c)
                        (flat_map (fun x => x :: Bs.descendants x) cs)).
    { intros above. induction IH as [|x l Hx _ IHl]; [reflexivity|].
      cbn [flat_map]. rewrite filter_app, <- IHl, Hx. reflexivity. }
    rewrite Hcs. destruct (Bs.matches_compound c (Tag name attrs cs)); reflexivity.
Qed.

Lemma select_single (c : Bs.compound) (soup : node) :
  Bs.select [c] soup = filter (Bs.matches_compound c) (Bs.descendants soup).
Proof.
  destruct soup as [t|t|name attrs cs]; try reflexivity.
  unfold Bs.select. cbn [rev app Bs.descendants].
  induction cs as [|x cs IH]; [reflexivity|].
  cbn [flat_map]. rewrite filter_app, <- IH, select_at_single. reflexivity.
Qed.

(** What the broadest selector matches, in document order. *)
Lemma broad_anchor_hrefs (soup : node) :
  hrefs_selected [sel "a" None job_href] soup
  = anchor_hrefs (Py.startswith "/job/") (Bs.descendants soup).
Proof.
  unfold hrefs_selected. rewrite select_single.
  induction (Bs.descendants soup) as [|n nodes IH]; [reflexivity|].
  cbn [filter anchor_hrefs flat_map].
  fold (anchor_hrefs (Py.startswith "/job/") nodes).
  destruct n as [t|t|name attrs cs]; try exact IH.
  unfold Bs.matches_compound, sel, job_href.
  cbn [Bs.sel_tag Bs.sel_class Bs.sel_attr_prefix Bs.is_tag Bs.get].
  destruct (String.eqb "a" name); [|exact IH].
  destruct (Bs.lookup "href" attrs) as [h|] eqn:Hh; [|exact IH].
  assert (Hof : href_of (Tag name attrs cs) = h)
    by (unfold href_of; cbn [Bs.get]; now rewrite Hh).
  cbn [andb]. destruct (Py.startswith "/job/" h); [|exact IH].
  cbn [map app]. rewrite Hof. f_equal. exact IH.
Qed.

(** C5. For every listing page, with [m1], [m2], [m3] the links that the
    selectors [div.mag-b h2 a[href^="/job/"]], [div.job-listing h2
    a[href^="/job/"]] and [a[href^="/job/"]] match: the result is [m1]
    when [m1] is not empty, else [m2] when [m2] is not empty, else [m3]
    when [m3] is not empty.  Only when all three are empty is it the
    fallback: the [href]s, in document order, of all [a] elements of the
    page whose [href] holds "/job/" somewhere, and of no other node.  The
    result is one of these lists, never a merge of two, although [m3], the
    [href]s of all [a] elements whose [href] starts with "/job/", holds
    every link of [m1] and of [m2]. *)
Theorem get_job_links_first_match (soup : node) :
  let a_job := sel "a" None (Some ("href", "/job/" : text)) in
  let m1 := hrefs_selected
              [sel "div" (Some ("mag-b" : text)) None; sel "h2" None None; a_job]
              soup in
  let m2 := hrefs_selected
              [sel "div" (Some ("job-listing" : text)) None; sel "h2" None None; a_job]
              soup in
  let m3 := hrefs_selected [a_job] soup in
  (m1 <> [] -> get_job_links soup = m1)
  /\ (m1 = [] -> m2 <> [] -> get_job_links soup = m2)
  /\ (m1 = [] -> m2 = [] -> m3 <> [] -> get_job_links soup = m3)
  /\ (m1 = [] -> m2 = [] -> m3 = [] ->
      get_job_links soup = anchor_hrefs (Py.contains "/job/") (Bs.descendants soup)
      /\ forall link,
          In link (get_job_links soup)
          <-> (exists pre post, link = pre ++ "/job/" ++ post)
              /\ exists a, In a (Bs.descendants soup) /\ anchor_to link a)
  /\ m3 = anchor_hrefs (Py.startswith "/job/") (Bs.descendants soup)
  /\ incl m1 m3 /\ incl m2 m3.
Proof.
  cbv zeta.
  assert (Hfall : fallback_links soup
                  = anchor_hrefs (Py.contains "/job/") (Bs.descendants soup))
    by apply scan_anchor_hrefs.
  unfold get_job_links, selectors, job_href.
  split; [intros H1; now rewrite (proj1 (first_links_cons _ _ soup) H1)|].
  split.
  { intros H1 H2. rewrite (proj2 (first_links_cons _ _ soup) H1).
    now rewrite (proj1 (first_links_cons _ _ soup) H2). }
  split.
  { intros H1 H2 H3. rewrite (proj2 (first_links_cons _ _ soup) H1).
    rewrite (proj2 (first_links_cons _ _ soup) H2).
    now rewrite (proj1 (first_links_cons _ _ soup) H3). }
  split.
  { intros H1 H2 H3. rewrite (proj2 (first_links_cons _ _ soup) H1).
    rewrite (proj2 (first_links_cons _ _ soup) H2).
    rewrite (proj2 (first_links_cons _ _ soup) H3).
    cbn [first_links]. rewrite Hfall. split; [reflexivity|].
    intros link. rewrite anchor_hrefs_In, contains_iff. reflexivity. }
  split; [exact (broad_anchor_hrefs soup)|].
  split; unfold hrefs_selected; apply incl_map;
    match goal with
    | |- incl (Bs.select [?d; ?h; ?a] soup) _ => exact (select_last [d; h] a soup)
    end.
Qed.

Example get_job_links_first_match_witness :
  get_job_links listing_mixed = ["/job/1" : text]
  /\ hrefs_selected [sel "a" None (Some ("href", "/job/" : text))] listing_mixed
     = ["/job/1" : text; "/job/2" : text]
  /\ get_job_links listing_absolute
     = ["https://www.myjobmag.com/job/9" : text;
        "https://www.myjobmag.com/job/10" : text].
Proof.
  split; [|split; [reflexivity|]].
  - apply (proj1 (get_job_links_first_match listing_mixed)).
    vm_compute. discriminate.
  - exact (proj1 (proj1 (proj2 (proj2 (proj2 (get_job_links_first_match
                                                listing_absolute))))
                        eq_refl eq_refl eq_refl)).
Defined.

(** ** The crawl *)

Lemma scrape_job_fields (b : world) (k : nat) (url : text) (r : record) :
  scrape_job b k url = Some r -> FIELDS_ok r.
Proof.
  unfold scrape_job, bind. destruct (load b k url) as [soup|e]; [|discriminate].
  destruct (extract_job_data soup) as [[r'|]|e] eqn:He; try discriminate.
  intros [= <-]. exact (extract_job_data_fields _ He).
Qed.

Lemma append_row_scraped (b : world) (k : nat) (url : text) (acc : list record) :
  append_row acc (scrape_job b k url) = acc ++ records_of [scrape_job b k url].
Proof.
  destruct (scrape_job b k url) as [r|] eqn:Hs; simpl.
  - apply scrape_job_fields in Hs. destruct r; [discriminate|reflexivity].
  - now rewrite app_nil_r.
Qed.

Lemma crawl_spec (b : world) (links : list text) :
  forall k acc,
    navigations (fst (crawl b k links acc)) = map resolve links
    /\ file_written (fst (crawl b k links acc)) = false
    /\ rows_written (fst (crawl b k links acc)) = []
    /\ snd (crawl b k links acc) = acc ++ records_of (scraped b k links).
Proof.
  induction links as [|link rest IH]; intros k acc.
  - simpl. now rewrite app_nil_r.
  - simpl. rewrite append_row_scraped.
    specialize (IH (S k) (acc ++ records_of [scrape_job b k (resolve link)])).
    destruct (crawl b (S k) rest _) as [evs out]. simpl in *.
    destruct IH as [Hn [Hw [Hr Ho]]].
    repeat split; try assumption.
    + now rewrite Hn.
    + rewrite Ho, <- app_assoc. f_equal.
      destruct (scrape_job b k (resolve link)); simpl; now rewrite ?app_nil_r.
Qed.

Lemma records_of_length (rows : list (option record)) :
  length (records_of rows) <= length rows.
Proof.
  induction rows as [|[r|] rows IH]; simpl; lia.
Qed.

Lemma scraped_length (b : world) (links : list text) (k : nat) :
  length (scraped b k links) = length links.
Proof. revert k. induction links; intros k; simpl; [reflexivity|now rewrite IHlinks]. Qed.

Lemma scraped_fields (b : world) (links : list text) (k : nat) :
  Forall FIELDS_ok (records_of (scraped b k links)).
Proof.
  revert k. induction links as [|link rest IH]; intros k; simpl; [constructor|].
  destruct (scrape_job b k (resolve link)) as [r|] eqn:Hs; simpl; [|apply IH].
  constructor; [exact (scrape_job_fields _ _ _ Hs)|apply IH].
Qed.

Lemma batch_spec (b : world) (soup : node) :
  batch b soup = records_of (scraped b 1 (firstn LINK_CAP (get_job_links soup))).
Proof. unfold batch. now rewrite (proj2 (proj2 (proj2 (crawl_spec b _ 1 [])))). Qed.

Lemma batch_length (b : world) (soup : node) : length (batch b soup) <= 10.
Proof.
  rewrite batch_spec.
  etransitivity; [apply records_of_length|].
  rewrite scraped_length, length_firstn. apply Nat.le_min_l.
Qed.

Lemma row_fits_FIELDS (r : record) : FIELDS_ok r -> row_fits FIELDS r = true.
Proof. unfold FIELDS_ok, row_fits. now intros ->. Qed.

(** With rows of one field list [writerows] refuses nothing. *)
Lemma flush_fields (opened : result unit) (rows : list record) :
  Forall FIELDS_ok rows -> flush opened rows = written opened rows.
Proof.
  intros Hall. destruct rows as [|first rest]; [reflexivity|].
  unfold flush, written. destruct opened as [u|e]; [|reflexivity].
  pose proof (Forall_inv Hall) as Hf. unfold FIELDS_ok in Hf.
  rewrite Hf.
  assert (Hfits : forallb (row_fits FIELDS) (first :: rest) = true).
  { apply forallb_forall. intros r Hr. apply row_fits_FIELDS.
    rewrite Forall_forall in Hall. now apply Hall. }
  now rewrite Hfits.
Qed.

(** The whole run, once the listing page has loaded. *)
Lemma main_loaded (b : world) (soup : node) :
  load b 0 JOBS_URL = Returned soup ->
  main b
  = match get_job_links soup with
    | [] => ([Navigate JOBS_URL; QuitDriver; WaitEnter], Done)
    | _ :: _ =>
        (Navigate JOBS_URL
           :: fst (crawl b 1 (firstn LINK_CAP (get_job_links soup)) [])
           ++ QuitDriver
           :: fst (written (open_csv b) (batch b soup)),
         snd (written (open_csv b) (batch b soup)))
    end.
Proof.
  intros Hl. unfold main. rewrite Hl.
  destruct (get_job_links soup) as [|l ls] eqn:Hlinks; [reflexivity|].
  pose proof (scraped_fields b (firstn LINK_CAP (get_job_links soup)) 1) as Hf.
  rewrite <- batch_spec in Hf. unfold batch in *. rewrite Hlinks in *.
  destruct (crawl b 1 (firstn LINK_CAP (l :: ls)) []) as [evs rows].
  simpl fst. simpl snd in *. rewrite (flush_fields (open_csv b) Hf).
  now destruct (written (open_csv b) rows).
Qed.

(** The events of [written]: rows only if the file opened. *)
Lemma written_events (opened : result unit) (rows : list record) :
  navigations (fst (written opened rows)) = []
  /\ rows_written (fst (written opened rows))
     = match opened with Returned _ => rows | Raised _ => [] end
  /\ file_written (fst (written opened rows))
     = match rows, opened with
       | _ :: _, Returned _ => true
       | _, _ => false
       end.
Proof.
  destruct rows as [|r rs]; destruct opened as [u|e]; simpl;
    rewrite ?app_nil_r; now repeat split.
Qed.

Lemma navigations_app (t1 t2 : list event) :
  navigations (t1 ++ t2) = navigations t1 ++ navigations t2.
Proof.
  induction t1 as [|e t1 IH]; [reflexivity|].
  destruct e; simpl; now rewrite IH.
Qed.

Lemma rows_written_app (t1 t2 : list event) :
  rows_written (t1 ++ t2) = rows_written t1 ++ rows_written t2.
Proof.
  induction t1 as [|e t1 IH]; [reflexivity|].
  destruct e; simpl; rewrite IH; [..|now rewrite app_assoc|]; reflexivity.
Qed.

Lemma file_written_app (t1 t2 : list event) :
  file_written (t1 ++ t2) = file_written t1 || file_written t2.
Proof. apply existsb_app. Qed.

(** The only write of a run is that of its batch under [FIELDS]. *)
Lemma main_write_event (b : world) (fieldnames : list string) (rows : list record) :
  In (WriteCsv fieldnames rows) (fst (main b)) ->
  exists soup,
    load b 0 JOBS_URL = Returned soup
    /\ fieldnames = FIELDS /\ rows = batch b soup /\ rows <> [].
Proof.
  intros Hin. destruct (load b 0 JOBS_URL) as [soup|e] eqn:Hl.
  - exists soup. split; [reflexivity|].
    rewrite (main_loaded b Hl) in Hin.
    destruct (get_job_links soup) as [|l ls] eqn:Hlinks.
    + simpl in Hin. intuition discriminate.
    + cbn [fst] in Hin. destruct Hin as [Hin|Hin]; [discriminate|].
      apply in_app_or in Hin. destruct Hin as [Hin|Hin].
      * exfalso.
        destruct (crawl_spec b (firstn LINK_CAP (l :: ls)) 1 []) as [_ [Hw _]].
        unfold file_written in Hw.
        assert (Hex : existsb is_write
                        (fst (crawl b 1 (firstn LINK_CAP (l :: ls)) [])) = true)
          by (apply existsb_exists; eexists; split; [exact Hin|reflexivity]).
        congruence.
      * destruct Hin as [Hin|Hin]; [discriminate|].
        destruct (batch b soup) as [|r0 rs]; destruct (open_csv b) as [u|e];
          simpl in Hin; try (intuition discriminate).
        destruct Hin as [[= <- <-]|[Hin|[]]]; [|discriminate].
        now repeat split.
  - unfold main in Hin. rewrite Hl in Hin. simpl in Hin. intuition discriminate.
Qed.

(** C6. For every run whose listing page loads: the pages visited after
    the listing are the first 10 collected links, resolved, in list order,
    however many were collected; the batch has at most 10 records, and the
    rows written are the batch when the output file opens, none
    otherwise. *)
Theorem main_visits_first_ten (b : world) :
  match load b 0 JOBS_URL with
  | Returned soup =>
      navigations (fst (main b))
      = JOBS_URL :: map resolve (firstn 10 (get_job_links soup))
      /\ length (navigations (fst (main b))) <= 1 + 10
      /\ length (batch b soup) <= 10
      /\ rows_written (fst (main b))
         = match open_csv b with Returned _ => batch b soup | Raised _ => [] end
      /\ length (rows_written (fst (main b))) <= 10
  | Raised _ =>
      navigations (fst (main b)) = [JOBS_URL] /\ rows_written (fst (main b)) = []
  end.
Proof.
  destruct (load b 0 JOBS_URL) as [soup|e] eqn:Hl;
    [|unfold main; rewrite Hl; now split].
  assert (Hnav : navigations (fst (main b))
                 = JOBS_URL :: map resolve (firstn 10 (get_job_links soup))
                 /\ rows_written (fst (main b))
                    = match open_csv b with
                      | Returned _ => batch b soup
                      | Raised _ => []
                      end).
  { rewrite (main_loaded b Hl).
    destruct (get_job_links soup) as [|l ls] eqn:Hlinks.
    - split; [reflexivity|]. unfold batch. rewrite Hlinks.
      now destruct (open_csv b).
    - destruct (crawl_spec b (firstn LINK_CAP (l :: ls)) 1 []) as [Hn [_ [Hr _]]].
      destruct (written_events (open_csv b) (batch b soup)) as [Wn [Wr _]].
      cbn [fst navigations rows_written].
      rewrite navigations_app, rows_written_app, Hn, Hr.
      cbn [navigations rows_written app]. rewrite Wn, Wr, app_nil_r.
      now split. }
  destruct Hnav as [Hnav Hrows]. split; [exact Hnav|].
  split; [rewrite Hnav; cbn [length]; rewrite length_map, length_firstn; lia|].
  split; [apply batch_length|]. split; [exact Hrows|].
  rewrite Hrows. destruct (open_csv b); [apply batch_length|simpl; lia].
Qed.

Example main_twelve_links :
  length (get_job_links listing_twelve) = 12
  /\ navigations (fst (main (serve listing_twelve page_full)))
     = JOBS_URL
       :: map (fun n : string => BASE_URL ++ "/job/" ++ (n : text))
              ["1"; "2"; "3"; "4"; "5"; "6"; "7"; "8"; "9"; "10"]
  /\ length (rows_written (fst (main (serve listing_twelve page_full)))) = 10.
Proof. repeat split; vm_compute; reflexivity. Qed.

(** C7, as the code has it. For every run whose listing page loads: a
    file is written exactly when the batch is not empty and the output
    file opens, and [main] returns exactly when the batch is empty or the
    file opens; so no file is written, and [main] returns, when no link is
    found or when every visited page gives no record.  With a batch that
    is not empty and an output file that does not open, the exception
    leaves [main] and nothing is written.  When the listing page does not
    load, the exception leaves [main] and no file is written. *)
Theorem main_writes_iff_batch (b : world) :
  match load b 0 JOBS_URL with
  | Returned soup =>
      (file_written (fst (main b)) = true
       <-> batch b soup <> [] /\ open_csv b = Returned tt)
      /\ (snd (main b) = Done <-> batch b soup = [] \/ open_csv b = Returned tt)
      /\ (forall e, batch b soup <> [] -> open_csv b = Raised e ->
          snd (main b) = Uncaught e /\ file_written (fst (main b)) = false)
      /\ (get_job_links soup = [] ->
          batch b soup = [] /\ file_written (fst (main b)) = false
          /\ snd (main b) = Done)
      /\ (Forall (fun row => row = None)
                 (scraped b 1 (firstn 10 (get_job_links soup))) ->
          batch b soup = [] /\ file_written (fst (main b)) = false
          /\ snd (main b) = Done)
  | Raised e =>
      snd (main b) = Uncaught e /\ file_written (fst (main b)) = false
  end.
Proof.
  destruct (load b 0 JOBS_URL) as [soup|e] eqn:Hl;
    [|unfold main; rewrite Hl; now split].
  assert (Hmain : snd (main b) = snd (written (open_csv b) (batch b soup))
                  /\ file_written (fst (main b))
                     = file_written (fst (written (open_csv b) (batch b soup)))).
  { rewrite (main_loaded b Hl).
    destruct (get_job_links soup) as [|l ls] eqn:Hlinks.
    - unfold batch. rewrite Hlinks. now split.
    - split; [reflexivity|].
      destruct (crawl_spec b (firstn LINK_CAP (l :: ls)) 1 []) as [_ [Hw _]].
      cbn [fst]. change (file_written (?e :: ?t)) with (is_write e || file_written t).
      rewrite file_written_app, Hw. reflexivity. }
  destruct Hmain as [Hout Hfile]. rewrite Hout, Hfile. clear Hout Hfile.
  assert (Hempty : batch b soup = [] ->
                   batch b soup = []
                   /\ file_written (fst (written (open_csv b) (batch b soup))) = false
                   /\ snd (written (open_csv b) (batch b soup)) = Done).
  { intros Hb. rewrite Hb. now repeat split. }
  split; [|split; [|split; [|split]]].
  - destruct (batch b soup) as [|r rs]; destruct (open_csv b) as [[]|e]; simpl;
      split; try discriminate; try (intros [H1 H2]; congruence);
      intros _; split; [discriminate|reflexivity].
  - destruct (batch b soup) as [|r rs]; destruct (open_csv b) as [[]|e]; simpl;
      split; try discriminate; try (intros _; reflexivity);
      try (intros _; now left); try (intros _; now right);
      intros [H|H]; discriminate.
  - intros e Hb He. rewrite He.
    destruct (batch b soup); [contradiction|now split].
  - intros Hlinks. apply Hempty. unfold batch. now rewrite Hlinks.
  - intros Hnone. apply Hempty. rewrite batch_spec.
    change LINK_CAP with 10.
    induction Hnone as [|row rows -> _ IH]; [reflexivity|exact IH].
Qed.

Example main_writes_iff_batch_witness :
  batch (serve listing_mixed page_no_contact) listing_mixed = []
  /\ file_written (fst (main (serve listing_mixed page_no_contact))) = false
  /\ snd (main (serve listing_mixed page_no_contact)) = Done.
Proof.
  apply (proj2 (proj2 (proj2 (proj2
           (main_writes_iff_batch (serve listing_mixed page_no_contact)))))).
  repeat constructor.
Defined.

(** C7 as stated fails: with a batch that is not empty, no file is written
    when the output file cannot be opened, and [main] does not return. *)
Lemma main_no_desktop :
  batch (no_desktop (serve listing_mixed page_full)) listing_mixed <> []
  /\ file_written (fst (main (no_desktop (serve listing_mixed page_full)))) = false
  /\ snd (main (no_desktop (serve listing_mixed page_full))) = Uncaught OSError.
Proof. split; [vm_compute; discriminate|split; reflexivity]. Qed.

Example main_writes_file :
  file_written (fst (main (serve listing_mixed page_full))) = true
  /\ file_written (fst (main (serve (soup_of []) page_full))) = false.
Proof. split; vm_compute; reflexivity. Qed.

(** C10. Every record [extract_job_data] returns has exactly the 17 field
    names of [FIELDS], in that order (so no name twice); hence in every run
    the header written, taken from the first record, is [FIELDS], and so
    are the field names of every row written under it. *)
Theorem record_fields :
  length FIELDS = 17
  /\ NoDup FIELDS
  /\ (forall soup r, extract_job_data soup = Returned (Some r) -> keys r = FIELDS)
  /\ (forall b fieldnames rows,
         In (WriteCsv fieldnames rows) (fst (main b)) ->
         fieldnames = FIELDS /\ Forall (fun r => keys r = FIELDS) rows).
Proof.
  split; [reflexivity|]. split.
  { unfold FIELDS. repeat (constructor; [simpl; intuition discriminate|]).
    constructor. }
  split; [exact extract_job_data_fields|].
  intros b fieldnames rows Hin.
  destruct (main_write_event _ _ _ Hin) as [soup [_ [-> [-> _]]]].
  split; [reflexivity|].
  rewrite batch_spec. apply scraped_fields.
Qed.

Example record_fields_witness :
  match extract_job_data page_full with
  | Returned (Some r) => keys r = FIELDS
  | _ => False
  end.
Proof.
  destruct (extract_job_data page_full) as [[r|]|e] eqn:He;
    [|vm_compute in He; discriminate..].
  exact (proj1 (proj2 (proj2 record_fields)) page_full r He).
Defined.

(** ** The matcher *)

Lemma firstn_plus {A : Type} (j m : nat) (s : list A) :
  firstn (j + m) s = firstn j s ++ firstn m (skipn j s).
Proof.
  revert s. induction j as [|j IH]; intros s; [reflexivity|].
  destruct s as [|a s]; simpl; [now rewrite firstn_nil|]. now rewrite IH.
Qed.

Lemma run_le_length (c : ascii -> bool) (s : text) : Re.run c s <= length s.
Proof. induction s as [|a s IH]; simpl; [lia|]. destruct (c a); simpl; lia. Qed.

(** Every prefix within the run is made of characters of the class. *)
Lemma run_prefix (c : ascii -> bool) (s : text) (k : nat) :
  k <= Re.run c s -> Forall (fun a => c a = true) (firstn k s).
Proof.
  revert k. induction s as [|a s IH]; intros k Hk.
  - rewrite firstn_nil. constructor.
  - destruct k as [|k]; [constructor|]. simpl in *.
    destruct (c a) eqn:Ha; [|lia]. constructor; [exact Ha|apply IH; lia].
Qed.

(** The run is the longest such prefix. *)
Lemma run_longest (c : ascii -> bool) (u r : text) :
  Forall (fun a => c a = true) u -> length u <= Re.run c (u ++ r).
Proof.
  induction 1 as [|a u Ha _ IH]; simpl; [lia|]. rewrite Ha. lia.
Qed.

Lemma skipn_nth_error {A : Type} (j : nat) (s r : list A) (a : A) :
  skipn j s = a :: r -> nth_error s j = Some a.
Proof.
  revert s. induction j as [|j IH]; intros [|b s]; simpl; try discriminate.
  - now intros [= -> _].
  - apply IH.
Qed.

Lemma try_down_Some (f : nat -> option nat) (lo k r : nat) :
  Re.try_down f lo k = Some r ->
  exists j, lo <= j <= k /\ f j = Some r /\ forall j', j < j' <= k -> f j' = None.
Proof.
  induction k as [|k IH]; simpl.
  - destruct (0 <? lo) eqn:Hlo; [discriminate|]. apply Nat.ltb_ge in Hlo.
    destruct (f 0) eqn:Hf; [|discriminate]. intros [= <-].
    exists 0. split; [lia|]. split; [exact Hf|]. intros j' Hj'. lia.
  - destruct (S k <? lo) eqn:Hlo; [discriminate|]. apply Nat.ltb_ge in Hlo.
    destruct (f (S k)) eqn:Hf.
    + intros [= <-]. exists (S k). split; [lia|]. split; [exact Hf|].
      intros j' Hj'. lia.
    + intros H. destruct (IH H) as [j [Hj [Hfj Hnone]]].
      exists j. split; [lia|]. split; [exact Hfj|].
      intros j' Hj'. destruct (Nat.eq_dec j' (S k)) as [->|Hne]; [exact Hf|].
      apply Hnone. lia.
Qed.

Lemma try_down_None (f : nat -> option nat) (lo k : nat) :
  Re.try_down f lo k = None -> forall j, lo <= j <= k -> f j = None.
Proof.
  induction k as [|k IH]; simpl.
  - destruct (0 <? lo) eqn:Hlo; [apply Nat.ltb_lt in Hlo; intros _ j Hj; lia|].
    destruct (f 0) eqn:Hf; [discriminate|].
    intros _ j Hj. now replace j with 0 by lia.
  - destruct (S k <? lo) eqn:Hlo; [apply Nat.ltb_lt in Hlo; intros _ j Hj; lia|].
    destruct (f (S k)) eqn:Hf; [discriminate|].
    intros H j Hj. destruct (Nat.eq_dec j (S k)) as [->|Hne]; [exact Hf|].
    apply IH; [exact H|lia].
Qed.

Lemma option_map_add_Some (k : nat) (o : option nat) (n : nat) :
  option_map (Nat.add k) o = Some n -> exists m, o = Some m /\ n = k + m.
Proof. destruct o as [m|]; simpl; [|discriminate]. intros [= <-]. now exists m. Qed.

(** What a successful match of a repetition says: the repetition took [j]
    characters, the rest of the pattern matched after them, and it matched
    after no longer repetition. *)
Lemma match_repeat_inv (lo : nat) (c : ascii -> bool) (p : Re.pattern)
      (s : text) (n : nat) :
  Re.try_down (fun k => option_map (Nat.add k) (Re.match_here p (skipn k s)))
              lo (Re.run c s) = Some n ->
  exists j m,
    lo <= j <= Re.run c s
    /\ Re.match_here p (skipn j s) = Some m
    /\ n = j + m
    /\ forall j', j < j' <= Re.run c s -> Re.match_here p (skipn j' s) = None.
Proof.
  intros H. apply try_down_Some in H. destruct H as [j [Hj [Hf Hnone]]].
  apply option_map_add_Some in Hf. destruct Hf as [m [Hm ->]].
  exists j, m. split; [lia|]. split; [exact Hm|]. split; [reflexivity|].
  intros j' Hj'. specialize (Hnone j' Hj').
  destruct (Re.match_here p (skipn j' s)); [discriminate|reflexivity].
Qed.

Lemma match_one_inv (c : ascii -> bool) (p : Re.pattern) (s : text) (n : nat) :
  Re.match_here (Re.One c :: p) s = Some n ->
  exists a s' m,
    s = a :: s' /\ c a = true /\ Re.match_here p s' = Some m /\ n = S m.
Proof.
  simpl. destruct s as [|a s']; [discriminate|].
  destruct (c a) eqn:Ha; [|discriminate].
  destruct (Re.match_here p s') as [m|] eqn:Hm; simpl; [|discriminate].
  intros [= <-]. exists a, s', m. now repeat split.
Qed.

(** A match is a word of the pattern's language at the start of [s]. *)
Lemma match_here_sound (p : Re.pattern) :
  forall s n, Re.match_here p s = Some n ->
              n <= length s /\ Re.matches p (firstn n s).
Proof.
  assert (Hrep : forall lo c p',
    (forall s n, Re.match_here p' s = Some n ->
                 n <= length s /\ Re.matches p' (firstn n s)) ->
    forall s n,
      Re.try_down (fun k => option_map (Nat.add k) (Re.match_here p' (skipn k s)))
                  lo (Re.run c s) = Some n ->
      exists j m, lo <= j /\ n = j + m /\ n <= length s
                  /\ Forall (fun a => c a = true) (firstn j s)
                  /\ length (firstn j s) = j
                  /\ Re.matches p' (firstn m (skipn j s))).
  { intros lo c p' IH s n H.
    apply match_repeat_inv in H. destruct H as [j [m [Hj [Hm [-> _]]]]].
    destruct (IH _ _ Hm) as [Hlen Hmatch].
    pose proof (run_le_length c s). rewrite length_skipn in Hlen.
    exists j, m. split; [lia|]. split; [reflexivity|]. split; [lia|].
    split; [apply run_prefix; lia|]. split; [|exact Hmatch].
    rewrite length_firstn. lia. }
  induction p as [|[c|c|c] p IH]; intros s n H.
  - injection H as <-. split; [lia|]. rewrite firstn_O. constructor.
  - apply match_one_inv in H. destruct H as [a [s' [m [-> [Ha [Hm ->]]]]]].
    destruct (IH _ _ Hm) as [Hlen Hmatch]. simpl. split; [lia|].
    now constructor.
  - destruct (Hrep 1 c p IH s n H) as [j [m [Hj [-> [Hlen [Hall [Hl Hm]]]]]]].
    split; [exact Hlen|]. rewrite firstn_plus. constructor; try assumption.
    intros Hnil. rewrite Hnil in Hl. simpl in Hl. lia.
  - destruct (Hrep 0 c p IH s n H) as [j [m [Hj [-> [Hlen [Hall [Hl Hm]]]]]]].
    split; [exact Hlen|]. rewrite firstn_plus. now constructor.
Qed.

(** Backtracking is complete: where a word of the language starts [s],
    the matcher finds a match. *)
Lemma match_here_complete (p : Re.pattern) (w : text) :
  Re.matches p w -> forall r, Re.match_here p (w ++ r) <> None.
Proof.
  assert (Hrep : forall lo c p' u w',
    lo <= length u ->
    Forall (fun a => c a = true) u ->
    (forall r, Re.match_here p' (w' ++ r) <> None) ->
    forall r,
      Re.try_down
        (fun k => option_map (Nat.add k) (Re.match_here p' (skipn k ((u ++ w') ++ r))))
        lo (Re.run c ((u ++ w') ++ r)) <> None).
  { intros lo c p' u w' Hlo Hu IH r Hnone.
    assert (Hrange : lo <= length u <= Re.run c ((u ++ w') ++ r)).
    { split; [exact Hlo|]. rewrite <- app_assoc. now apply run_longest. }
    pose proof (@try_down_None _ _ _ Hnone (length u) Hrange) as Hf.
    cbv beta in Hf.
    rewrite <- app_assoc, skipn_app, skipn_all, Nat.sub_diag in Hf.
    simpl in Hf. specialize (IH r).
    destruct (Re.match_here p' (w' ++ r)); [discriminate|contradiction]. }
  induction 1 as [|c p a w Ha Hm IH|c p u w Hne Hu Hm IH|c p u w Hu Hm IH];
    intros r.
  - discriminate.
  - simpl. rewrite Ha. specialize (IH r).
    destruct (Re.match_here p (w ++ r)); [discriminate|contradiction].
  - apply Hrep; try assumption. destruct u; [contradiction|simpl; lia].
  - apply Hrep; try assumption. lia.
Qed.

Lemma match_plus_inv (c : ascii -> bool) (p : Re.pattern) (s : text) (n : nat) :
  Re.match_here (Re.Plus c :: p) s = Some n ->
  exists j m,
    1 <= j <= Re.run c s
    /\ Re.match_here p (skipn j s) = Some m
    /\ n = j + m
    /\ forall j', j < j' <= Re.run c s -> Re.match_here p (skipn j' s) = None.
Proof. exact (@match_repeat_inv 1 c p s n). Qed.

(** Inside the run every character is of the class. *)
Lemma run_inside (c : ascii -> bool) (s : text) (k : nat) :
  k < Re.run c s -> exists a, nth_error s k = Some a /\ c a = true.
Proof.
  revert k. induction s as [|b s IH]; simpl; intros k Hk; [lia|].
  destruct (c b) eqn:Hb; [|lia].
  destruct k as [|k]; [now exists b|]. simpl. apply IH. lia.
Qed.

(** A position within the run that holds a character outside the class is
    the end of the run. *)
Lemma run_end (c : ascii -> bool) (s : text) (k : nat) (a : ascii) :
  k <= Re.run c s -> nth_error s k = Some a -> c a = false -> k = Re.run c s.
Proof.
  intros Hk Hn Ha. destruct (Nat.eq_dec k (Re.run c s)) as [|Hne]; [assumption|].
  destruct (@run_inside c s k ltac:(lia)) as [a' [Hn' Ha']]. congruence.
Qed.

(** [re.search] returns the match at the first position that has one. *)
Lemma search_from_Some (p : Re.pattern) (s : text) :
  forall pos i n,
    Re.search_from p pos s = Some (i, n) ->
    exists k,
      i = pos + k /\ k <= length s
      /\ Re.match_here p (skipn k s) = Some n
      /\ forall j, j < k -> Re.match_here p (skipn j s) = None.
Proof.
  induction s as [|a s IH]; intros pos i n; simpl.
  - destruct (Re.match_here p []) as [n'|] eqn:Hm; [|discriminate].
    intros [= <- <-]. exists 0. rewrite Nat.add_0_r.
    split; [reflexivity|]. split; [simpl; lia|]. split; [exact Hm|].
    intros j Hj. lia.
  - destruct (Re.match_here p (a :: s)) as [n'|] eqn:Hm.
    + intros [= <- <-]. exists 0. rewrite Nat.add_0_r.
      split; [reflexivity|]. split; [simpl; lia|]. split; [exact Hm|].
      intros j Hj. lia.
    + intros H. destruct (IH _ _ _ H) as [k [-> [Hk [Hmk Hleft]]]].
      exists (S k). split; [lia|]. split; [simpl; lia|]. split; [exact Hmk|].
      intros [|j] Hj; [exact Hm|]. simpl. apply Hleft. lia.
Qed.

Lemma search_from_None (p : Re.pattern) (s : text) :
  forall pos, Re.search_from p pos s = None ->
              forall j, Re.match_here p (skipn j s) = None.
Proof.
  induction s as [|a s IH]; intros pos; simpl.
  - destruct (Re.match_here p []) eqn:Hm; [discriminate|].
    intros _ j. now rewrite skipn_nil.
  - destruct (Re.match_here p (a :: s)) eqn:Hm; [discriminate|].
    intros H [|j]; [exact Hm|]. simpl. exact (IH _ H j).
Qed.

(** ** Email addresses *)

Lemma is_char_eq (x a : ascii) : is_char (String x EmptyString) a = true -> a = x.
Proof. simpl. apply Ascii.eqb_eq. Qed.

(** The shape, spelled out: [local@domain.tld]. *)
Lemma email_shaped_parts (w : text) :
  email_shaped w <->
  exists local domain tld,
    w = local ++ "@"%char :: domain ++ "."%char :: tld
    /\ local <> [] /\ all_in email_class local
    /\ domain <> [] /\ all_in email_class domain
    /\ tld <> [] /\ all_in Py.is_word tld.
Proof.
  unfold email_shaped, email_re. split.
  - intros H.
    inversion H as [| |c p u w1 Hu1 Hu2 H1|]; subst; clear H.
    inversion H1 as [|c p a w2 Ha H2| |]; subst; clear H1.
    inversion H2 as [| |c p v w3 Hv1 Hv2 H3|]; subst; clear H2.
    inversion H3 as [|c p b w4 Hb H4| |]; subst; clear H3.
    inversion H4 as [| |c p t w5 Ht1 Ht2 H5|]; subst; clear H4.
    inversion H5; subst; clear H5.
    apply is_char_eq in Ha, Hb. subst a b.
    exists u, v, t. rewrite app_nil_r. now repeat split.
  - intros [u [v [t [-> [Hu1 [Hu2 [Hv1 [Hv2 [Ht1 Ht2]]]]]]]]].
    constructor; try assumption.
    constructor; [reflexivity|].
    constructor; try assumption.
    constructor; [reflexivity|].
    rewrite <- (app_nil_r t). constructor; try assumption. constructor.
Qed.

Lemma nth_error_middle (u x : text) (a : ascii) :
  nth_error (u ++ a :: x) (length u) = Some a.
Proof. rewrite nth_error_app2 by lia. now rewrite Nat.sub_diag. Qed.

Lemma skipn_middle (u x : text) (a : ascii) :
  skipn (length u) (u ++ a :: x) = a :: x.
Proof. rewrite skipn_app, skipn_all, Nat.sub_diag. reflexivity. Qed.

(** Among the email-shaped prefixes of [s] the matcher returns the
    longest. *)
Lemma email_longest (s : text) (n : nat) :
  Re.match_here email_re s = Some n ->
  forall m, m <= length s -> email_shaped (firstn m s) -> m <= n.
Proof.
  intros H m Hlen Hm. unfold email_re in H.
  apply match_plus_inv in H. destruct H as [j1 [n1 [Hj1 [H1 [-> _]]]]].
  apply match_one_inv in H1. destruct H1 as [a [s2 [n2 [Hs2 [Ha [H2 ->]]]]]].
  apply match_plus_inv in H2. destruct H2 as [j2 [n3 [Hj2 [H3 [-> Hno2]]]]].
  apply match_one_inv in H3. destruct H3 as [b [s3 [n4 [Hs3 [Hb [H4 ->]]]]]].
  apply match_plus_inv in H4. destruct H4 as [j3 [n5 [Hj3 [_ [-> Hno3]]]]].
  apply is_char_eq in Ha, Hb. subst a b.
  (* the last repetition took the whole run *)
  assert (Hj3' : j3 = Re.run Py.is_word s3).
  { destruct (Nat.eq_dec j3 (Re.run Py.is_word s3)) as [|Hne]; [assumption|].
    specialize (Hno3 (Re.run Py.is_word s3) ltac:(lia)). discriminate. }
  (* the other match, cut into its parts *)
  apply email_shaped_parts in Hm.
  destruct Hm as [u [v [t [Hw [Hu1 [Hu2 [Hv1 [Hv2 [Ht1 Ht2]]]]]]]]].
  assert (Hs : s = u ++ "@"%char :: v ++ "."%char :: t ++ skipn m s).
  { rewrite <- (firstn_skipn m s) at 1. rewrite Hw.
    rewrite <- !app_assoc. simpl. f_equal. f_equal.
    rewrite <- !app_assoc. reflexivity. }
  assert (Hmlen : m = length u + S (length v + S (length t))).
  { apply (f_equal (@length ascii)) in Hw.
    rewrite length_firstn, Nat.min_l in Hw by exact Hlen.
    rewrite Hw, length_app. simpl. rewrite length_app. reflexivity. }
  set (rest := skipn m s) in *.
  (* both local parts end at the first "@" *)
  assert (Hu : length u = j1).
  { assert (E1 : length u = Re.run email_class s).
    { apply (@run_end email_class s (length u) "@"%char).
      - rewrite Hs at 1. now apply run_longest.
      - rewrite Hs at 1. apply nth_error_middle.
      - reflexivity. }
    assert (E2 : j1 = Re.run email_class s).
    { apply (@run_end email_class s j1 "@"%char); [lia| |reflexivity].
      exact (skipn_nth_error _ _ Hs2). }
    lia. }
  assert (Hs2' : s2 = v ++ "."%char :: t ++ rest).
  { rewrite <- Hu in Hs2. rewrite Hs in Hs2 at 1.
    rewrite skipn_middle in Hs2. now injection Hs2 as <-. }
  (* the domain part of the other match is no longer than the matcher's *)
  assert (Hv : length v <= j2).
  { destruct (Nat.le_gt_cases (length v) j2) as [|Hgt]; [assumption|exfalso].
    assert (Hrun : length v <= Re.run email_class s2)
      by (rewrite Hs2'; now apply run_longest).
    specialize (Hno2 (length v) ltac:(lia)).
    rewrite Hs2', skipn_middle in Hno2.
    apply (@match_here_complete [Re.One (is_char "."); Re.Plus Py.is_word]
             ("."%char :: t)) with (r := rest); [|exact Hno2].
    constructor; [reflexivity|].
    rewrite <- (app_nil_r t). constructor; try assumption. constructor. }
  destruct (Nat.eq_dec (length v) j2) as [Heq|Hne].
  - (* same domain part: the top-level part is within the run *)
    assert (Hs3' : s3 = t ++ rest).
    { rewrite <- Heq, Hs2', skipn_middle in Hs3. now injection Hs3 as <-. }
    assert (Ht : length t <= Re.run Py.is_word s3)
      by (rewrite Hs3'; now apply run_longest).
    lia.
  - (* shorter domain part: its top-level part ends before the matcher's dot *)
    assert (Hdot : nth_error s2 j2 = Some "."%char)
      by exact (skipn_nth_error _ _ Hs3).
    assert (Ht : length v + S (length t) <= j2).
    { destruct (Nat.le_gt_cases (length v + S (length t)) j2) as [|Hgt];
        [assumption|exfalso].
      rewrite Hs2' in Hdot.
      rewrite nth_error_app2 in Hdot by lia.
      destruct (j2 - length v) as [|d] eqn:Hd; [lia|]. simpl in Hdot.
      rewrite nth_error_app1 in Hdot by lia.
      apply nth_error_In in Hdot.
      unfold all_in in Ht2. rewrite Forall_forall in Ht2.
      specialize (Ht2 _ Hdot). discriminate. }
    lia.
Qed.

(** C8. For every text: if no substring has the shape of an email address
    the result is empty; otherwise the result is the email-shaped
    substring that starts leftmost, and of those that start there the
    longest. *)
Theorem extract_email_leftmost (t : text) :
  (extract_email t = [] /\ forall i n, ~ occurs_at t i n)
  \/ (exists i n,
         occurs_at t i n
         /\ extract_email t = firstn n (skipn i t)
         /\ extract_email t <> []
         /\ forall j m, occurs_at t j m -> i < j \/ (i = j /\ m <= n)).
Proof.
  unfold extract_email, Re.search.
  assert (Hfound : forall j m, occurs_at t j m ->
                               Re.match_here email_re (skipn j t) <> None).
  { intros j m [_ Hm].
    rewrite <- (firstn_skipn m (skipn j t)).
    now apply match_here_complete. }
  destruct (Re.search_from email_re 0 t) as [[i n]|] eqn:Hs.
  - right. apply search_from_Some in Hs.
    destruct Hs as [k [-> [Hk [Hm Hleft]]]]. change (0 + k) with k.
    destruct (match_here_sound _ _ Hm) as [Hn Hshape].
    rewrite length_skipn in Hn.
    exists k, n. unfold Re.group0. cbn [fst snd].
    split; [split; [lia|exact Hshape]|]. split; [reflexivity|]. split.
    + apply email_shaped_parts in Hshape.
      destruct Hshape as [u [v [w [-> _]]]]. now destruct u.
    + intros j m Hocc. pose proof (Hfound j m Hocc) as Hj.
      destruct (Nat.lt_trichotomy k j) as [Hlt|[<-|Hgt]].
      * now left.
      * right. split; [reflexivity|].
        destruct Hocc as [Hb Hsh].
        apply (email_longest _ Hm); [rewrite length_skipn; lia|exact Hsh].
      * exfalso. apply Hj. now apply Hleft.
  - left. split; [reflexivity|].
    intros i n Hocc. apply (Hfound i n Hocc).
    exact (search_from_None _ _ _ Hs i).
Qed.

Example extract_email_none :
  extract_email "Apply in person at our office @ Moi Avenue." = [].
Proof. reflexivity. Qed.

Example extract_email_first_of_two :
  extract_email "Send CV to hr@acme.co.ke, or jobs@x.org." = ("hr@acme.co.ke" : text).
Proof. reflexivity. Qed.

Example extract_email_leftmost_witness :
  let t : text := "Send CV to hr@acme.co.ke, or jobs@x.org." in
  occurs_at t 29 10
  /\ exists i n,
      extract_email t = firstn n (skipn i t)
      /\ (i < 29 \/ (i = 29 /\ 10 <= n)).
Proof.
  cbv zeta.
  assert (Hocc : occurs_at "Send CV to hr@acme.co.ke, or jobs@x.org." 29 10).
  { split; [vm_compute; lia|]. apply email_shaped_parts.
    exists ("jobs" : text), ("x" : text), ("org" : text).
    split; [reflexivity|].
    repeat split; try discriminate; repeat constructor. }
  split; [exact Hocc|].
  destruct (extract_email_leftmost "Send CV to hr@acme.co.ke, or jobs@x.org.")
    as [[_ Hnone]|[i [n [_ [He [_ Hleft]]]]]].
  - exfalso. exact (Hnone _ _ Hocc).
  - exists i, n. split; [exact He|exact (Hleft _ _ Hocc)].
Defined.

(** * Further properties *)

(** ** Trimmed text *)

Lemma rstrip_fixed_last (s : text) : Py.rstrip s = s -> no_lead (rev s).
Proof.
  induction s as [|c t IH]; [intros _; exact I|].
  simpl. destruct (Py.rstrip t) as [|d r] eqn:Hr.
  - destruct (Py.isspace c) eqn:Hc; [discriminate|].
    intros [= <-]. simpl. exact Hc.
  - intros [= <-]. specialize (IH eq_refl). simpl in *.
    destruct (rev r ++ [d]) as [|x y] eqn:Hrev.
    + apply app_eq_nil in Hrev. destruct Hrev; discriminate.
    + exact IH.
Qed.

Lemma strip_trimmed (s : text) : trimmed (Py.strip s).
Proof.
  destruct (strip_stripped s) as [Hl Hr].
  split; [exact Hl|now apply rstrip_fixed_last].
Qed.

Lemma get_text_trimmed (sep : text) (n : node) : trimmed (Bs.get_text sep n).
Proof. rewrite <- get_text_stripped. apply strip_trimmed. Qed.

Lemma trimmed_nil : trimmed [].
Proof. now split. Qed.

(** X1. Whatever element it is given, present or absent,
    [extract_text_safe] returns text without whitespace at either end, and
    stripping it again changes nothing; for [None] it returns the empty
    text. *)
Theorem extract_text_safe_trimmed (elem : option node) :
  trimmed (extract_text_safe elem)
  /\ Py.strip (extract_text_safe elem) = extract_text_safe elem
  /\ extract_text_safe None = [].
Proof.
  destruct elem as [e|]; simpl.
  - split; [apply get_text_trimmed|]. split; [apply get_text_stripped|reflexivity].
  - now repeat split.
Qed.

(** ** The address resolver *)

(** X2. Resolving a link against the site gives a link that does not start
    with "/", so resolving twice is resolving once: a link that [main] and
    [extract_job_data] have resolved is never resolved again into a
    different one. *)
Theorem resolve_absolute (href : text) :
  Py.startswith "/" (resolve href) = false
  /\ resolve (resolve href) = resolve href.
Proof.
  assert (H : Py.startswith "/" (resolve href) = false).
  { unfold resolve. destruct (Py.startswith "/" href) eqn:Hs; [reflexivity|exact Hs]. }
  split; [exact H|]. unfold resolve at 1. now rewrite H.
Qed.

(** ** More on the slug *)

Lemma isspace_lower_char (c : ascii) : Py.isspace (Py.lower_char c) = Py.isspace c.
Proof. destruct c as [[] [] [] [] [] [] [] []]; reflexivity. Qed.

Lemma blank_lower (s : text) : blank (Py.lower s) = blank s.
Proof.
  induction s as [|c s IH]; [reflexivity|].
  simpl. now rewrite isspace_lower_char, <- IH.
Qed.

Lemma split_ws_nil_iff (s : text) : Py.split_ws s = [] <-> blank s = true.
Proof.
  induction s as [|c s IH]; [now split|].
  rewrite split_ws_cons. simpl. destruct (Py.isspace c); simpl; [exact IH|].
  split; [|discriminate].
  destruct s as [|d s']; [discriminate|].
  destruct (Py.isspace d); [discriminate|].
  destruct (Py.split_ws (d :: s')); discriminate.
Qed.

Lemma join_nil (sep : text) (parts : list text) :
  (forall w, In w parts -> w <> []) -> Py.join sep parts = [] -> parts = [].
Proof.
  destruct parts as [|x rest]; [reflexivity|].
  intros Hne. simpl. destruct rest as [|y rest'].
  - intros ->. exfalso. now apply (Hne []); [left|].
  - intros H. apply app_eq_nil in H. destruct H as [-> _].
    exfalso. now apply (Hne []); [left|].
Qed.

Lemma split_ws_single (s : text) :
  s <> [] -> forallb (fun c => negb (Py.isspace c)) s = true -> Py.split_ws s = [s].
Proof.
  induction s as [|c s IH]; [contradiction|]. intros _ Hall.
  simpl in Hall. apply andb_true_iff in Hall. destruct Hall as [Hc Hall].
  apply negb_true_iff in Hc. rewrite split_ws_cons, Hc.
  destruct s as [|d s']; [reflexivity|].
  assert (Hd : Py.isspace d = false).
  { simpl in Hall. apply andb_true_iff in Hall. now apply negb_true_iff. }
  rewrite Hd, IH; [reflexivity|discriminate|exact Hall].
Qed.

Lemma lower_fixed (s : text) :
  (forall c, In c s -> Py.isupper c = false) -> Py.lower s = s.
Proof.
  induction s as [|c s IH]; [reflexivity|]. intros H. simpl.
  unfold Py.lower_char at 1. rewrite (H c (or_introl eq_refl)).
  f_equal. apply IH. intros x Hx. apply H. now right.
Qed.

Lemma slug_chars (title : text) (c : ascii) :
  In c (slug_of title) -> Py.isupper c = false /\ Py.isspace c = false.
Proof.
  unfold slug_of. intros Hc. apply slice_to_chars, join_chars in Hc.
  destruct Hc as [Hc|[w [Hw Hc]]].
  - destruct Hc as [<-|[]]. split; reflexivity.
  - destruct (split_ws_words _ _ Hw) as [_ Hchars].
    destruct (Hchars c Hc) as [Hsp Hin]. split; [|exact Hsp].
    exact (lower_not_upper _ _ Hin).
Qed.

(** X3. The slug is empty exactly when the title has no character that is
    not whitespace (the empty title of a page without [h1] included). *)
Theorem slug_empty_iff_blank (title : text) :
  slug_of title = [] <-> blank title = true.
Proof.
  unfold slug_of, Py.slice_to. split.
  - intros H.
    assert (Hj : Py.join "-" (Py.split_ws (Py.lower title)) = []).
    { destruct (Py.join "-" (Py.split_ws (Py.lower title))); [reflexivity|discriminate]. }
    apply join_nil in Hj.
    + apply split_ws_nil_iff in Hj. now rewrite blank_lower in Hj.
    + intros w Hw. exact (proj1 (split_ws_words _ _ Hw)).
  - intros Hb. rewrite <- blank_lower in Hb. apply split_ws_nil_iff in Hb.
    now rewrite Hb.
Qed.

(** X4. Making a slug of a slug gives the same slug. *)
Theorem slug_idempotent (title : text) :
  slug_of (slug_of title) = slug_of title.
Proof.
  set (s := slug_of title).
  assert (Hlow : Py.lower s = s).
  { apply lower_fixed. intros c Hc. exact (proj1 (slug_chars _ _ Hc)). }
  assert (Hlen : length s <= 50).
  { unfold s, slug_of, Py.slice_to. rewrite length_firstn. apply Nat.le_min_l. }
  unfold slug_of at 1. rewrite Hlow.
  destruct s as [|c t] eqn:Hs; [reflexivity|].
  rewrite split_ws_single.
  - simpl Py.join. unfold Py.slice_to. now apply firstn_all2.
  - discriminate.
  - apply forallb_forall. intros x Hx. apply negb_true_iff.
    rewrite <- Hs in Hx. exact (proj2 (slug_chars _ _ Hx)).
Qed.

(** ** More on the split *)

Lemma split_fold_partition (lines : list text) :
  forall st,
    (st_section st = desc -> requirements_lines st = []) ->
    description_lines (fold_left split_step lines st)
    ++ requirements_lines (fold_left split_step lines st)
    = description_lines st ++ requirements_lines st ++ filter not_separator lines.
Proof.
  induction lines as [|l lines IH]; intros st Hinv.
  - simpl. now rewrite app_nil_r.
  - cbn [fold_left filter]. destruct (is_separator l) eqn:Hl.
    + replace (not_separator l) with false
        by (unfold not_separator; now rewrite Hl).
      replace (split_step st l)
        with {| st_section := req;
                description_lines := description_lines st;
                requirements_lines := requirements_lines st |}
        by (unfold split_step; now rewrite Hl).
      rewrite split_fold_req by reflexivity. reflexivity.
    + replace (not_separator l) with true
        by (unfold not_separator; now rewrite Hl).
      destruct (st_section st) eqn:Hsec.
      * replace (split_step st l)
          with {| st_section := desc;
                  description_lines := description_lines st ++ [l];
                  requirements_lines := requirements_lines st |}
          by (unfold split_step; now rewrite Hl, Hsec).
        rewrite IH by (simpl; intros _; now apply Hinv).
        simpl. rewrite (Hinv eq_refl). simpl. now rewrite <- app_assoc.
      * replace (split_step st l)
          with {| st_section := req;
                  description_lines := description_lines st;
                  requirements_lines := requirements_lines st ++ [l] |}
          by (unfold split_step; now rewrite Hl, Hsec).
        rewrite split_fold_req by reflexivity. simpl.
        now rewrite <- app_assoc.
Qed.

(** X5. The split loses and reorders nothing but separators: description
    followed by requirements is exactly the input without the lines that
    contain "requirement", in the input's order. *)
Theorem split_lines_partition (lines : list text) :
  description_lines (split_lines lines) ++ requirements_lines (split_lines lines)
  = filter not_separator lines.
Proof.
  unfold split_lines. now rewrite split_fold_partition.
Qed.

(** ** Cleaned lines *)

Lemma lstrip_suffix (s : text) : exists ws, s = ws ++ Py.lstrip s /\ blank ws = true.
Proof.
  induction s as [|c s [ws [Hs Hws]]]; [now exists []|].
  simpl. destruct (Py.isspace c) eqn:Hc.
  - exists (c :: ws). simpl. rewrite Hc, Hws. split; [now f_equal|reflexivity].
  - now exists [].
Qed.

Lemma rstrip_prefix (s : text) : exists ws, s = Py.rstrip s ++ ws.
Proof.
  induction s as [|c s [ws Hs]]; [now exists []|].
  simpl. destruct (Py.rstrip s) as [|d r].
  - destruct (Py.isspace c); [exists (c :: s)|exists s]; simpl; [reflexivity|].
    now rewrite Hs.
  - exists ws. simpl. now f_equal.
Qed.

Lemma strip_chars (s : text) (c : ascii) : In c (Py.strip s) -> In c s.
Proof.
  unfold Py.strip. intros Hc.
  destruct (rstrip_prefix (Py.lstrip s)) as [ws2 H2].
  destruct (lstrip_suffix s) as [ws1 [H1 _]].
  rewrite H1, H2. apply in_or_app. right. apply in_or_app. now left.
Qed.

Lemma single_spaced_tail (c : ascii) (t : text) :
  single_spaced (c :: t) = true -> single_spaced t = true.
Proof.
  simpl. destruct t; [reflexivity|]. intros H.
  apply andb_true_iff in H. exact (proj2 H).
Qed.

Lemma single_spaced_suffix (u s : text) :
  single_spaced (u ++ s) = true -> single_spaced s = true.
Proof.
  induction u as [|a u IH]; [trivial|]. intros H.
  apply IH. exact (single_spaced_tail _ _ H).
Qed.

Lemma single_spaced_prefix (s u : text) :
  single_spaced (s ++ u) = true -> single_spaced s = true.
Proof.
  induction s as [|a s IH]; [reflexivity|]. intros H.
  pose proof (single_spaced_tail _ _ H) as Ht. specialize (IH Ht).
  destruct s as [|b s']; [reflexivity|].
  simpl in H. apply andb_true_iff in H. destruct H as [Hab _].
  change (single_spaced (a :: b :: s'))
    with (negb (Py.isspace a && Py.isspace b) && single_spaced (b :: s')).
  now rewrite Hab, IH.
Qed.

Lemma single_spaced_strip (s : text) :
  single_spaced s = true -> single_spaced (Py.strip s) = true.
Proof.
  unfold Py.strip. intros H.
  destruct (lstrip_suffix s) as [ws1 [H1 _]].
  destruct (rstrip_prefix (Py.lstrip s)) as [ws2 H2].
  rewrite H1 in H. apply single_spaced_suffix in H.
  rewrite H2 in H. exact (single_spaced_prefix _ _ H).
Qed.

(** After [re.sub(r'\s+', ' ', line)] the only whitespace is single
    spaces; when the scan is inside a run, what follows does not begin
    with whitespace. *)
Lemma collapse_ws_spec (line : text) :
  forall in_run,
    single_spaced (collapse_ws in_run line) = true
    /\ (in_run = true -> no_lead (collapse_ws in_run line))
    /\ forall c, In c (collapse_ws in_run line) -> Py.isspace c = true -> c = " "%char.
Proof.
  induction line as [|a line IH]; intros in_run; [now repeat split|].
  simpl. destruct (Py.isspace a) eqn:Ha.
  - destruct in_run.
    + exact (IH true).
    + destruct (IH true) as [Hs [Hl Hc]]. specialize (Hl eq_refl).
      split; [|split; [discriminate|]].
      * destruct (collapse_ws true line) as [|d r] eqn:Hr; [reflexivity|].
        change (negb (Py.isspace " " && Py.isspace d) && single_spaced (d :: r) = true).
        simpl in Hl. rewrite Hl, Hs. reflexivity.
      * intros c [<-|Hin] Hsp; [reflexivity|now apply Hc].
  - destruct (IH false) as [Hs [_ Hc]].
    split; [|split].
    + destruct (collapse_ws false line) as [|d r] eqn:Hr; [reflexivity|].
      change (negb (Py.isspace a && Py.isspace d) && single_spaced (d :: r) = true).
      rewrite Ha, Hs. reflexivity.
    + intros _. exact Ha.
    + intros c [<-|Hin] Hsp; [congruence|now apply Hc].
Qed.

(** X6. A cleaned line has no whitespace at either end, no whitespace
    character other than the space, and no two spaces side by side,
    whatever the raw line was. *)
Theorem clean_line_normalised (line : text) :
  trimmed (clean_line line)
  /\ single_spaced (clean_line line) = true
  /\ forall c, In c (clean_line line) -> Py.isspace c = true -> c = " "%char.
Proof.
  unfold clean_line.
  destruct (collapse_ws_spec (sub_bullet line) false) as [Hs [_ Hc]].
  split; [apply strip_trimmed|]. split; [now apply single_spaced_strip|].
  intros c Hin. apply Hc. now apply strip_chars.
Qed.

(** ** Bullets *)

Lemma rstrip_keeps (u : text) (c : ascii) (y : text) :
  Py.isspace c = false -> exists r, Py.rstrip (u ++ c :: y) = u ++ c :: r.
Proof.
  intros Hc. induction u as [|a u [r IH]].
  - exists (Py.rstrip y). now apply rstrip_cons_nonspace.
  - exists r. simpl. rewrite IH. now destruct u.
Qed.

Lemma strip_after_bullet (y : text) :
  exists r, Py.strip (BULLET ++ y) = BULLET ++ r.
Proof.
  unfold Py.strip.
  change (Py.lstrip (BULLET ++ y)) with (BULLET ++ y).
  change (BULLET ++ y) with (firstn 6 BULLET ++ nth 6 BULLET " "%char :: y).
  destruct (@rstrip_keeps (firstn 6 BULLET) (nth 6 BULLET " "%char) y eq_refl)
    as [r Hr].
  exists r. exact Hr.
Qed.

Lemma collapse_after_bullet (b : bool) (x : text) :
  collapse_ws b (BULLET ++ x) = BULLET ++ collapse_ws false x.
Proof. reflexivity. Qed.

Lemma startswith_self (p r : text) : Py.startswith p (p ++ r) = true.
Proof. apply startswith_app. now exists r. Qed.

Lemma blank_Forall (ws : text) :
  blank ws = true -> Forall (fun a => Py.isspace a = true) ws.
Proof. unfold blank. rewrite forallb_forall. now rewrite Forall_forall. Qed.

(** A line whose first character after leading whitespace is a bullet
    character gets the marker in place of it. *)
Lemma sub_bullet_marked (raw : text) (c : ascii) (rest : text) :
  Py.lstrip raw = c :: rest -> bullet_class c = true ->
  exists n, sub_bullet raw = BULLET ++ " " ++ skipn n raw.
Proof.
  intros Hl Hc. unfold sub_bullet.
  destruct (lstrip_suffix raw) as [ws [Hraw Hws]]. rewrite Hl in Hraw.
  assert (Hm : Re.matches
                 [Re.Star Py.isspace; Re.One bullet_class; Re.Star Py.isspace]
                 (ws ++ [c])).
  { constructor; [now apply blank_Forall|].
    constructor; [exact Hc|].
    exact (@Re.matches_star Py.isspace [] [] [] (Forall_nil _) Re.matches_nil). }
  pose proof (match_here_complete Hm rest) as Hne.
  rewrite <- app_assoc in Hne. cbn [app] in Hne. rewrite <- Hraw in Hne.
  destruct (Re.match_here _ raw) as [n|]; [now exists n|contradiction].
Qed.

(** X7. A line that starts, after any whitespace, with "-", "*" or another
    character of the bullet class comes out of the cleaning with the
    bullet marker in front, and the formatter then leaves it as it is: it
    is not prefixed a second time. *)
Theorem marked_line_bulleted_once (raw : text) (c : ascii) (rest : text) :
  Py.lstrip raw = c :: rest ->
  bullet_class c = true ->
  Py.startswith BULLET (clean_line raw) = true
  /\ bulleted (clean_line raw) = clean_line raw.
Proof.
  intros Hl Hc. destruct (sub_bullet_marked _ Hl Hc) as [n Hsub].
  assert (Hstart : Py.startswith BULLET (clean_line raw) = true).
  { unfold clean_line. rewrite Hsub, collapse_after_bullet.
    destruct (strip_after_bullet (collapse_ws false (" " ++ skipn n raw))) as [r ->].
    apply startswith_self. }
  split; [exact Hstart|]. unfold bulleted. now rewrite Hstart.
Qed.

Example marked_line_bulleted_once_witness :
  Py.startswith BULLET (clean_line "  - Build  data pipelines") = true
  /\ bulleted (clean_line "  - Build  data pipelines")
     = clean_line "  - Build  data pipelines".
Proof.
  apply (@marked_line_bulleted_once "  - Build  data pipelines" "-"%char
           " Build  data pipelines"); reflexivity.
Defined.

(** X8. Every formatted line starts with the bullet marker, and formatting
    a formatted line changes nothing. *)
Theorem bulleted_idempotent (l : text) :
  Py.startswith BULLET (bulleted l) = true
  /\ bulleted (bulleted l) = bulleted l.
Proof.
  assert (H : Py.startswith BULLET (bulleted l) = true).
  { unfold bulleted. destruct (Py.startswith BULLET l) eqn:Hs; [exact Hs|].
    apply startswith_self. }
  split; [exact H|]. unfold bulleted at 1. now rewrite H.
Qed.

(** ** The formatted blocks *)

Lemma stripped_piece_strip (s : text) :
  Py.strip s <> [] -> stripped_piece (Py.strip s).
Proof.
  intros Hne. destruct (strip_stripped s) as [Hl Hr]. now repeat split.
Qed.

Lemma raw_lines_pieces (block : node) : Forall stripped_piece (raw_lines block).
Proof.
  unfold raw_lines. apply Forall_forall. intros l Hl.
  apply filter_In in Hl. destruct Hl as [Hin Ht].
  apply in_map_iff in Hin. destruct Hin as [n [<- _]].
  rewrite <- get_text_stripped. apply stripped_piece_strip.
  rewrite get_text_stripped. now apply truthy_nonempty.
Qed.

Lemma strip_nonempty (s : text) : s <> [] -> no_lead s -> Py.strip s <> [].
Proof.
  destruct s as [|c t]; [contradiction|]. intros _ Hc. simpl in Hc.
  unfold Py.strip. simpl. rewrite Hc.
  rewrite rstrip_cons_nonspace by exact Hc. discriminate.
Qed.

Lemma collapse_nonempty (s : text) :
  s <> [] -> no_lead s ->
  collapse_ws false s <> [] /\ no_lead (collapse_ws false s).
Proof.
  destruct s as [|c t]; [contradiction|]. intros _ Hc. simpl in Hc.
  simpl. rewrite Hc. split; [discriminate|exact Hc].
Qed.

Lemma sub_bullet_nonempty (l : text) :
  l <> [] -> no_lead l -> sub_bullet l <> [] /\ no_lead (sub_bullet l).
Proof.
  intros Hne Hl. unfold sub_bullet.
  destruct (Re.match_here _ l) as [n|]; [|now split].
  split; [discriminate|reflexivity].
Qed.

Lemma clean_line_piece (l : text) : stripped_piece l -> stripped_piece (clean_line l).
Proof.
  intros [Hne [Hl _]]. unfold clean_line. apply stripped_piece_strip.
  destruct (sub_bullet_nonempty Hne Hl) as [H1 H2].
  destruct (collapse_nonempty H1 H2) as [H3 H4].
  now apply strip_nonempty.
Qed.

Lemma bulleted_piece (l : text) : stripped_piece l -> stripped_piece (bulleted l).
Proof.
  intros [Hne [Hl Hr]]. unfold bulleted.
  destruct (Py.startswith BULLET l); [now repeat split|].
  split; [discriminate|]. split; [reflexivity|].
  rewrite app_assoc. now apply rstrip_app.
Qed.

Lemma split_lines_keeps (P : text -> Prop) (lines : list text) :
  Forall P lines ->
  Forall P (description_lines (split_lines lines))
  /\ Forall P (requirements_lines (split_lines lines)).
Proof.
  intros Hall.
  assert (H : Forall P (description_lines (split_lines lines)
                        ++ requirements_lines (split_lines lines))).
  { unfold split_lines. rewrite split_fold_partition by reflexivity. simpl.
    apply Forall_forall. intros l Hl. apply filter_In in Hl.
    rewrite Forall_forall in Hall. now apply Hall. }
  apply Forall_app in H. exact H.
Qed.

Lemma format_block_stripped (header : text) (lines : list text) :
  header <> [] -> no_lead header ->
  Forall stripped_piece lines ->
  Py.strip (format_block header lines) = format_block header lines.
Proof.
  intros Hh Hl Hall. destruct lines as [|l rest]; [reflexivity|].
  unfold format_block.
  assert (Hb : Forall stripped_piece (map bulleted (l :: rest))).
  { apply Forall_forall. intros x Hx. apply in_map_iff in Hx.
    destruct Hx as [y [<- Hy]]. apply bulleted_piece.
    rewrite Forall_forall in Hall. now apply Hall. }
  destruct (join_stripped NL Hb) as [_ [Hr Hne]].
  apply strip_fix; [now apply no_lead_app|].
  apply rstrip_app; [apply Hne; discriminate|exact Hr].
Qed.

(** X9. The two blocks [clean_and_format_text] returns are exactly the
    header line followed by one bulleted line per entry, the final
    [strip()] never removes anything; so a block is empty exactly when its
    list of lines is, and is never a header without lines. *)
Theorem clean_and_format_text_exact (block : node) :
  let st := split_lines (map clean_line (raw_lines block)) in
  clean_and_format_text block
  = (format_block DESC_HEADER (description_lines st),
     format_block REQ_HEADER (requirements_lines st))
  /\ (fst (clean_and_format_text block) = [] <-> description_lines st = [])
  /\ (snd (clean_and_format_text block) = [] <-> requirements_lines st = []).
Proof.
  cbv zeta.
  assert (Hclean : Forall stripped_piece (map clean_line (raw_lines block))).
  { apply Forall_forall. intros x Hx. apply in_map_iff in Hx.
    destruct Hx as [y [<- Hy]]. apply clean_line_piece.
    pose proof (raw_lines_pieces block) as Hraw.
    rewrite Forall_forall in Hraw. now apply Hraw. }
  destruct (split_lines_keeps Hclean) as [Hd Hr].
  assert (Heq : clean_and_format_text block
                = (format_block DESC_HEADER
                     (description_lines (split_lines (map clean_line (raw_lines block)))),
                   format_block REQ_HEADER
                     (requirements_lines (split_lines (map clean_line (raw_lines block)))))).
  { unfold clean_and_format_text. cbv zeta.
    rewrite !format_block_stripped; try assumption; try discriminate; reflexivity. }
  split; [exact Heq|]. rewrite Heq. cbn [fst snd].
  split; (split; [|now intros ->]);
    match goal with
    | |- format_block _ ?ls = [] -> _ => destruct ls; [reflexivity|discriminate]
    end.
Qed.

Example clean_and_format_text_no_lines :
  clean_and_format_text (Tag "div" [] [Tag "span" [] [txt "no paragraph here"]])
  = ([], []).
Proof. reflexivity. Qed.

(** ** The key-info loop *)

Lemma key_info_step_read (k : key_info) (li : node) (f : info_field) :
  (classify (label_of li) = Some f -> read f (key_info_step k li) = value_of li)
  /\ (classify (label_of li) <> Some f -> read f (key_info_step k li) = read f k).
Proof.
  unfold classify, key_info_step, label_of, value_of.
  set (key := Py.lower _). set (val := extract_text_safe _).
  destruct (Py.contains "location" key);
    [|destruct (Py.contains "qualification" key);
      [|destruct (Py.contains "experience" key);
        [|destruct (Py.contains "job type" key);
          [|destruct (Py.contains "field" key);
            [|destruct (Py.contains "salary" key);
              [|destruct (Py.contains "deadline" key || Py.contains "expires" key)]]]]]];
    split; intros H; destruct f; try reflexivity; try discriminate H;
    exfalso; now apply H.
Qed.

Lemma key_info_fold_other (f : info_field) (lis : list node) :
  forall k,
    (forall x, In x lis -> classify (label_of x) <> Some f) ->
    read f (fold_left key_info_step lis k) = read f k.
Proof.
  induction lis as [|li lis IH]; intros k Hno; [reflexivity|].
  simpl. rewrite IH by (intros x Hx; apply Hno; now right).
  apply key_info_step_read. apply Hno. now left.
Qed.

(** X10. Each key-info variable ends up with the value of the last entry
    whose label goes to it, where a label goes to the first keyword of the
    chain ("location", "qualification", "experience", "job type", "field",
    "salary", then "deadline" or "expires") that it contains; entries that
    go elsewhere or nowhere do not touch it. *)
Theorem key_info_last_wins (soup : node) (f : info_field)
        (pre post : list node) (li : node) :
  Bs.select KEY_INFO_SELECTOR soup = pre ++ li :: post ->
  classify (label_of li) = Some f ->
  (forall x, In x post -> classify (label_of x) <> Some f) ->
  read f (key_info_of soup) = value_of li.
Proof.
  intros Hsel Hli Hpost. unfold key_info_of. rewrite Hsel.
  rewrite fold_left_app. simpl.
  rewrite key_info_fold_other by exact Hpost.
  now apply key_info_step_read.
Qed.

Example key_info_last_wins_witness :
  location (key_info_of page_key_info) = ("Nairobi" : text).
Proof.
  apply (@key_info_last_wins page_key_info f_location
           [nth 0 (Bs.select KEY_INFO_SELECTOR page_key_info) (Comment [])]
           [nth 2 (Bs.select KEY_INFO_SELECTOR page_key_info) (Comment [])]
           (nth 1 (Bs.select KEY_INFO_SELECTOR page_key_info) (Comment []))).
  - reflexivity.
  - reflexivity.
  - intros x [<-|[]]. vm_compute. discriminate.
Defined.

(** X11. A variable no entry's label goes to stays empty. *)
Theorem key_info_default_empty (soup : node) (f : info_field) :
  (forall x, In x (Bs.select KEY_INFO_SELECTOR soup) -> classify (label_of x) <> Some f) ->
  read f (key_info_of soup) = [].
Proof.
  intros Hno. unfold key_info_of. rewrite key_info_fold_other by exact Hno.
  now destruct f.
Qed.

Example key_info_default_empty_witness :
  salary (key_info_of page_key_info) = [].
Proof.
  apply (@key_info_default_empty page_key_info f_salary).
  intros x Hx. vm_compute in Hx.
  destruct Hx as [<-|[<-|[<-|[]]]]; vm_compute; discriminate.
Defined.

(** ** More on the links *)

Lemma select_at_matches (c : Bs.compound) (cs : list Bs.compound) (n m : node) :
  forall ancestors,
    In m (Bs.select_at (c :: cs) ancestors n) -> Bs.matches_compound c m = true.
Proof.
  induction n as [s|s|name attrs children IH] using node_tree_ind;
    intros ancestors Hin; try contradiction.
  cbn [Bs.select_at] in Hin. apply in_app_or in Hin. destruct Hin as [Hin|Hin].
  - unfold Bs.matches_selector in Hin.
    destruct (Bs.matches_compound c (Tag name attrs children)) eqn:Hc;
      simpl in Hin; [|contradiction].
    destruct (Bs.under cs ancestors); [|contradiction].
    destruct Hin as [<-|[]]. exact Hc.
  - apply in_flat_map in Hin. destruct Hin as [child [Hchild Hin]].
    rewrite Forall_forall in IH. eapply IH; [exact Hchild|exact Hin].
Qed.

(** What [select] returns matches the last compound of the selector. *)
Lemma select_matches (outer : list Bs.compound) (c : Bs.compound) (soup m : node) :
  In m (Bs.select (outer ++ [c]) soup) -> Bs.matches_compound c m = true.
Proof.
  destruct soup as [s|s|name attrs children]; try contradiction.
  unfold Bs.select. rewrite rev_unit. intros Hin.
  apply in_flat_map in Hin. destruct Hin as [child [_ Hin]].
  eapply select_at_matches; exact Hin.
Qed.

Lemma job_link_href (m : node) :
  Bs.matches_compound (sel "a" None job_href) m = true ->
  Py.startswith "/job/" (href_of m) = true.
Proof.
  unfold Bs.matches_compound, href_of. simpl.
  destruct (Bs.get "href" m); rewrite ?andb_false_r; [|discriminate].
  intros H. apply andb_true_iff in H. exact (proj2 H).
Qed.

Lemma startswith_contains (p s : text) :
  Py.startswith p s = true -> Py.contains p s = true.
Proof. intros H. unfold Py.contains. rewrite find_unfold, H. reflexivity. Qed.

Lemma hrefs_selected_job (outer : list Bs.compound) (soup : node) (link : text) :
  In link (hrefs_selected (outer ++ [sel "a" None job_href]) soup) ->
  Py.startswith "/job/" link = true.
Proof.
  unfold hrefs_selected. intros Hin. apply in_map_iff in Hin.
  destruct Hin as [m [<- Hm]]. apply job_link_href.
  eapply select_matches; exact Hm.
Qed.

Lemma get_job_links_cases (soup : node) (link : text) :
  In link (get_job_links soup) ->
  Py.startswith "/job/" link = true \/ In link (fallback_links soup).
Proof.
  unfold get_job_links, selectors. cbn [first_links].
  destruct (hrefs_selected _ soup) as [|l1 r1] eqn:H1.
  - destruct (hrefs_selected _ soup) as [|l2 r2] eqn:H2 in |- *.
    + destruct (hrefs_selected [sel "a" None job_href] soup) as [|l3 r3] eqn:H3.
      * now right.
      * intros Hin. left. rewrite <- H3 in Hin.
        eapply (@hrefs_selected_job []); exact Hin.
    + intros Hin. left. rewrite <- H2 in Hin.
      eapply (@hrefs_selected_job [_; _]); exact Hin.
  - intros Hin. left. rewrite <- H1 in Hin.
    eapply (@hrefs_selected_job [_; _]); exact Hin.
Qed.

Lemma get_job_links_contain (soup : node) (link : text) :
  In link (get_job_links soup) -> Py.contains "/job/" link = true.
Proof.
  intros Hin. destruct (get_job_links_cases _ _ Hin) as [H|H].
  - now apply startswith_contains.
  - unfold fallback_links in H. apply filter_In in H. exact (proj2 H).
Qed.

(** X12. Every link [get_job_links] returns has "/job/" in it, whichever
    selector or the fallback produced it; a link found by a selector
    starts with it. *)
Theorem get_job_links_job_path (soup : node) (link : text) :
  In link (get_job_links soup) ->
  Py.contains "/job/" link = true
  /\ (Py.startswith "/job/" link = true \/ In link (fallback_links soup)).
Proof.
  intros Hin. split; [exact (get_job_links_contain _ _ Hin)|exact (get_job_links_cases _ _ Hin)].
Qed.

Example get_job_links_job_path_witness :
  Py.contains "/job/" "/job/1" = true
  /\ (Py.startswith "/job/" "/job/1" = true
      \/ In ("/job/1" : text) (fallback_links listing_mixed)).
Proof.
  apply (@get_job_links_job_path listing_mixed "/job/1").
  vm_compute. left. reflexivity.
Defined.

(** ** More on the run *)

Lemma contains_app_r (sub x s : text) :
  Py.contains sub s = true -> Py.contains sub (x ++ s) = true.
Proof.
  unfold Py.contains. intros H. induction x as [|a x IH]; [exact H|].
  simpl app. rewrite find_unfold.
  destruct (Py.startswith sub (a :: x ++ s)); [reflexivity|].
  destruct (Py.find sub (x ++ s)); [reflexivity|discriminate].
Qed.

Lemma contains_resolve (sub link : text) :
  Py.contains sub link = true -> Py.contains sub (resolve link) = true.
Proof.
  intros H. unfold resolve. destruct (Py.startswith "/" link); [|exact H].
  now apply contains_app_r.
Qed.

Lemma crawl_events (b : world) (links : list text) :
  forall k acc, fst (crawl b k links acc) = flat_map visit_events links.
Proof.
  induction links as [|link rest IH]; intros k acc; [reflexivity|].
  simpl. specialize (IH (S k) (append_row acc (scrape_job b k (resolve link)))).
  destruct (crawl b (S k) rest _) as [evs out]. simpl in *. now rewrite IH.
Qed.

(** X13. The events of a run that found links, in order: the listing page
    is opened; each of the first 10 links is opened and followed by a
    pause, whether or not the page gave a record; the browser is closed,
    once; then, with an empty batch, only the prompt follows; with a batch
    that is not empty the output file is opened, and either it opens, the
    file is written with the record's field names as header and the
    prompt follows, or it does not open and nothing more happens. *)
Theorem main_trace (b : world) (soup : node) :
  load b 0 JOBS_URL = Returned soup ->
  get_job_links soup <> [] ->
  fst (main b)
  = Navigate JOBS_URL
    :: flat_map visit_events (firstn 10 (get_job_links soup))
    ++ QuitDriver
    :: match batch b soup, open_csv b with
       | [], _ => [WaitEnter]
       | _ :: _, Returned _ => [WriteCsv FIELDS (batch b soup); WaitEnter]
       | _ :: _, Raised _ => []
       end.
Proof.
  intros Hl Hne. rewrite (main_loaded b Hl).
  destruct (get_job_links soup) as [|l ls]; [contradiction|].
  cbn [fst]. rewrite crawl_events.
  now destruct (batch b soup), (open_csv b).
Qed.

Example main_trace_witness :
  fst (main (serve listing_mixed page_no_contact))
  = [Navigate JOBS_URL; Navigate (BASE_URL ++ "/job/1"); Pause; QuitDriver; WaitEnter]
  /\ fst (main (no_desktop (serve listing_mixed page_full)))
     = [Navigate JOBS_URL; Navigate (BASE_URL ++ "/job/1"); Pause; QuitDriver].
Proof.
  split.
  - rewrite (@main_trace (serve listing_mixed page_no_contact) listing_mixed eq_refl).
    + reflexivity.
    + vm_compute. discriminate.
  - rewrite (@main_trace (no_desktop (serve listing_mixed page_full))
               listing_mixed eq_refl).
    + reflexivity.
    + vm_compute. discriminate.
Defined.

(** X14. Every page a run opens after the listing has "/job/" in its URL. *)
Theorem main_visits_job_pages (b : world) (soup : node) (url : text) :
  load b 0 JOBS_URL = Returned soup ->
  In url (navigations (fst (main b))) ->
  url = JOBS_URL \/ Py.contains "/job/" url = true.
Proof.
  intros Hl Hin. rewrite (main_loaded b Hl) in Hin.
  destruct (get_job_links soup) as [|l ls] eqn:Hlinks.
  - simpl in Hin. destruct Hin as [<-|[]]. now left.
  - cbn [fst navigations] in Hin. destruct Hin as [<-|Hin]; [now left|].
    right. rewrite navigations_app in Hin. apply in_app_or in Hin.
    destruct Hin as [Hin|Hin].
    + rewrite (proj1 (crawl_spec b _ 1 [])) in Hin.
      apply in_map_iff in Hin. destruct Hin as [link [<- Hlink]].
      apply contains_resolve, (@get_job_links_contain soup).
      rewrite Hlinks. change LINK_CAP with 10 in Hlink.
      revert Hlink. generalize (l :: ls). generalize 10.
      induction n as [|n IH]; intros [|x xs]; simpl; try contradiction.
      intros [<-|H]; [now left|right; now apply IH].
    + destruct (batch b soup), (open_csv b); simpl in Hin; intuition discriminate.
Qed.

Example main_visits_job_pages_witness :
  BASE_URL ++ "/job/1" = JOBS_URL
  \/ Py.contains "/job/" (BASE_URL ++ "/job/1") = true.
Proof.
  apply (@main_visits_job_pages (serve listing_mixed page_full) listing_mixed
           (BASE_URL ++ "/job/1") eq_refl).
  vm_compute. right. left. reflexivity.
Defined.

(** ** The values of a record *)

Lemma title_company_trimmed (soup : node) :
  trimmed (fst (title_company soup)) /\ trimmed (snd (title_company soup)).
Proof.
  unfold title_company. destruct (Bs.find (Bs.is_tag "h1") soup) as [h1|];
    [|split; apply trimmed_nil].
  cbv zeta. cbn [fst snd]. split; [apply strip_trimmed|].
  destruct (1 <? _); [apply strip_trimmed|apply trimmed_nil].
Qed.

Lemma extract_text_safe_is_trimmed (elem : option node) :
  trimmed (extract_text_safe elem).
Proof. destruct elem; [apply get_text_trimmed|apply trimmed_nil]. Qed.

Lemma tagline_trimmed (soup : node) : trimmed (tagline soup).
Proof.
  unfold tagline. destruct (Bs.find _ soup); [apply extract_text_safe_is_trimmed|].
  destruct (Bs.find _ soup); [apply extract_text_safe_is_trimmed|apply trimmed_nil].
Qed.

Lemma key_info_step_trimmed (k : key_info) (li : node) :
  (forall f, trimmed (read f k)) -> forall f, trimmed (read f (key_info_step k li)).
Proof.
  intros Hk f. destruct (key_info_step_read k li f) as [H1 H2].
  assert (D : classify (label_of li) = Some f \/ classify (label_of li) <> Some f).
  { destruct (classify (label_of li)) as [[]|]; destruct f;
      solve [left; reflexivity | right; discriminate]. }
  destruct D as [D|D].
  - rewrite (H1 D). apply extract_text_safe_is_trimmed.
  - rewrite (H2 D). apply Hk.
Qed.

Lemma key_info_trimmed (soup : node) (f : info_field) :
  trimmed (read f (key_info_of soup)).
Proof.
  unfold key_info_of. revert f.
  assert (H : forall lis k, (forall f, trimmed (read f k)) ->
                            forall f, trimmed (read f (fold_left key_info_step lis k))).
  { induction lis as [|li lis IH]; intros k Hk; [exact Hk|].
    simpl. apply IH. now apply key_info_step_trimmed. }
  apply H. intros f. destruct f; apply trimmed_nil.
Qed.

Lemma resolve_no_slash (href : text) : Py.startswith "/" (resolve href) = false.
Proof.
  unfold resolve. destruct (Py.startswith "/" href) eqn:Hs; [reflexivity|exact Hs].
Qed.

Lemma application_contact_url (soup : node) (email url : text) :
  application_contact soup = Returned (email, url) ->
  Py.startswith "/" url = false.
Proof.
  unfold application_contact.
  destruct (Bs.find is_method_heading soup) as [mb|]; [|now intros [= <- <-]].
  destruct (Bs.find_next _ mb) as [d|]; [|discriminate].
  destruct (Bs.find_in _ (fst d)); intros [= <- <-];
    [apply resolve_no_slash|reflexivity].
Qed.

(** X15. In every record [extract_job_data] returns: the values of the
    extracted text fields (company, tagline, location, job type, salary,
    expiry, category, qualifications, tag, subcategory and the composed
    content) have no whitespace at either end; [post_tag] and
    [subcategory] are copies of [job_category]; [skills_required] is empty
    and [post_category] is "job"; and the application URL does not start
    with "/". *)
Theorem record_values (soup : node) (r : record) :
  extract_job_data soup = Returned (Some r) ->
  (forall k v, In k TEXT_FIELDS -> Bs.lookup k r = Some v -> trimmed v)
  /\ Bs.lookup "post_tag" r = Bs.lookup "job_category" r
  /\ Bs.lookup "subcategory" r = Bs.lookup "job_category" r
  /\ Bs.lookup "skills_required" r = Some []
  /\ Bs.lookup "post_category" r = Some ("job" : text)
  /\ exists url, Bs.lookup "application_url" r = Some url
                 /\ Py.startswith "/" url = false.
Proof.
  unfold extract_job_data.
  pose proof (title_company_trimmed soup) as [_ Hcompany].
  destruct (title_company soup) as [title company]. cbn [snd] in Hcompany.
  destruct (description_requirements soup) as [description requirements].
  destruct (application_contact soup) as [[email url]|e] eqn:Hc; [|discriminate].
  apply application_contact_url in Hc.
  cbn [bind].
  destruct (negb (Py.truthy email) && negb (Py.truthy url)); [discriminate|].
  intros [= <-].
  pose proof (key_info_trimmed soup) as Hk.
  pose proof (tagline_trimmed soup) as Ht.
  split; [|repeat split; try reflexivity; now exists url].
  intros k v Hin. unfold TEXT_FIELDS in Hin.
  repeat (destruct Hin as [<-|Hin];
          [cbn [Bs.lookup String.eqb Ascii.eqb Bool.eqb]; intros [= <-];
           first [ exact Hcompany | exact Ht | exact (Hk f_location)
                 | exact (Hk f_job_type) | exact (Hk f_salary)
                 | exact (Hk f_job_expires) | exact (Hk f_field)
                 | exact (Hk f_qualification) | apply strip_trimmed ]|]).
  contradiction.
Qed.

Example record_values_witness :
  match extract_job_data page_full with
  | Returned (Some r) =>
      Bs.lookup "post_tag" r = Bs.lookup "job_category" r
      /\ Bs.lookup "application_url" r
         = Some ("https://www.myjobmag.com/apply/77" : text)
  | _ => False
  end.
Proof.
  destruct (extract_job_data page_full) as [[r|]|e] eqn:He;
    [|vm_compute in He; discriminate..].
  destruct (@record_values page_full r He) as [_ [Htag _]].
  split; [exact Htag|].
  vm_compute in He. injection He as <-. reflexivity.
Defined.

(** ** More on email addresses *)

Lemma email_class_not_space (c : ascii) :
  email_class c = true -> Py.isspace c = false.
Proof.
  destruct c as [[] [] [] [] [] [] [] []]; intros H;
    solve [reflexivity | discriminate H].
Qed.

Lemma is_word_email_class (c : ascii) : Py.is_word c = true -> email_class c = true.
Proof. unfold email_class. now intros ->. Qed.

Lemma email_shaped_chars (w : text) (c : ascii) :
  email_shaped w -> In c w -> Py.isspace c = false.
Proof.
  intros Hw Hc. apply email_shaped_parts in Hw.
  destruct Hw as [u [v [t [-> [_ [Hu [_ [Hv [_ Ht]]]]]]]]].
  unfold all_in in *. rewrite Forall_forall in Hu, Hv, Ht.
  apply in_app_or in Hc. destruct Hc as [Hc|[<-|Hc]];
    [now apply email_class_not_space, Hu|reflexivity|].
  apply in_app_or in Hc. destruct Hc as [Hc|[<-|Hc]];
    [now apply email_class_not_space, Hv|reflexivity|].
  now apply email_class_not_space, is_word_email_class, Ht.
Qed.

(** What [extract_email] returns, when it is not empty, is an email-shaped
    piece of the text. *)
Lemma extract_email_shaped (t : text) :
  extract_email t = [] \/ email_shaped (extract_email t).
Proof.
  unfold extract_email, Re.search.
  destruct (Re.search_from email_re 0 t) as [[i n]|] eqn:Hs; [|now left].
  right. apply search_from_Some in Hs. destruct Hs as [k [-> [_ [Hm _]]]].
  exact (proj2 (match_here_sound _ _ Hm)).
Qed.

(** On an email-shaped text the search returns the whole text. *)
Lemma extract_email_whole (w : text) : email_shaped w -> extract_email w = w.
Proof.
  intros Hw. unfold extract_email, Re.search.
  pose proof (match_here_complete Hw []) as Hne. rewrite app_nil_r in Hne.
  destruct (Re.match_here email_re w) as [n|] eqn:Hm; [|contradiction].
  assert (Hs : Re.search_from email_re 0 w = Some (0, n)).
  { destruct w; cbn [Re.search_from]; now rewrite Hm. }
  rewrite Hs. unfold Re.group0. cbn [fst snd skipn].
  destruct (match_here_sound _ _ Hm) as [Hle _].
  assert (Hge : length w <= n).
  { apply (email_longest _ Hm); [lia|]. now rewrite firstn_all. }
  apply firstn_all2. lia.
Qed.

(** X16. Extracting the email from an extracted email gives it back: the
    result of [extract_email] is itself an address the function accepts
    whole (or is empty); and it contains no whitespace. *)
Theorem extract_email_idempotent (t : text) :
  extract_email (extract_email t) = extract_email t
  /\ forall c, In c (extract_email t) -> Py.isspace c = false.
Proof.
  destruct (extract_email_shaped t) as [He|He].
  - rewrite He. split; [reflexivity|contradiction].
  - split; [now apply extract_email_whole|].
    intros c Hc. exact (@email_shaped_chars _ c He Hc).
Qed.

(** ** Pages that fail *)

Lemma scraped_app (b : world) (x y : list text) :
  forall k, scraped b k (x ++ y) = scraped b k x ++ scraped b (k + length x) y.
Proof.
  induction x as [|l x IH]; intros k; simpl.
  - now rewrite Nat.add_0_r.
  - rewrite IH. now rewrite Nat.add_succ_r.
Qed.

Lemma records_of_app (r1 r2 : list (option record)) :
  records_of (r1 ++ r2) = records_of r1 ++ records_of r2.
Proof. unfold records_of. apply flat_map_app. Qed.

(** X17. A page that gives nothing (its load raises, the extraction
    raises, or it has no contact) adds nothing to the batch and stops
    nothing: the rows are those of the links before it followed by those
    of the links after it, each scraped at its own turn, and every link is
    still visited. *)
Theorem crawl_skips_failed_page (b : world) (k : nat) (pre post : list text)
        (link : text) (data_rows : list record) :
  scrape_job b (k + length pre) (resolve link) = None ->
  snd (crawl b k (pre ++ link :: post) data_rows)
  = data_rows
    ++ records_of (scraped b k pre)
    ++ records_of (scraped b (S (k + length pre)) post)
  /\ navigations (fst (crawl b k (pre ++ link :: post) data_rows))
     = map resolve (pre ++ link :: post).
Proof.
  intros Hnone.
  destruct (crawl_spec b (pre ++ link :: post) k data_rows) as [Hnav [_ [_ Hrows]]].
  split; [|exact Hnav].
  rewrite Hrows, scraped_app, records_of_app. simpl scraped.
  rewrite Hnone. reflexivity.
Qed.

Example crawl_skips_failed_page_witness :
  let b := {| load := fun k _ => match k with
                                  | 2 => Raised WebDriverException
                                  | _ => Returned page_full
                                  end;
              open_csv := Returned tt |} in
  length (snd (crawl b 1 ["/job/1" : text; "/job/2" : text; "/job/3" : text] [])) = 2
  /\ navigations (fst (crawl b 1 ["/job/1" : text; "/job/2" : text; "/job/3" : text] []))
     = [resolve "/job/1"; resolve "/job/2"; resolve "/job/3"].
Proof.
  cbv zeta.
  destruct (@crawl_skips_failed_page
              {| load := fun k _ => match k with
                                    | 2 => Raised WebDriverException
                                    | _ => Returned page_full
                                    end;
                 open_csv := Returned tt |}
              1 ["/job/1" : text] ["/job/3" : text] "/job/2" [] eq_refl)
    as [Hrows Hnav].
  split; [|exact Hnav].
  change (["/job/1" : text] ++ ["/job/2" : text; "/job/3" : text])
    with ["/job/1" : text; "/job/2" : text; "/job/3" : text] in Hrows.
  rewrite Hrows. reflexivity.
Defined.

(** ** When no link is found *)

Lemma select_at_descendants (rsel : list Bs.compound) (n m : node) :
  forall ancestors,
    In m (Bs.select_at rsel ancestors n) -> m = n \/ In m (Bs.descendants n).
Proof.
  induction n as [s|s|name attrs children IH] using node_tree_ind;
    intros ancestors Hin; try contradiction.
  cbn [Bs.select_at] in Hin. apply in_app_or in Hin. destruct Hin as [Hin|Hin].
  - destruct (Bs.matches_selector rsel ancestors (Tag name attrs children));
      [|contradiction].
    destruct Hin as [<-|[]]. now left.
  - right. apply in_flat_map in Hin. destruct Hin as [child [Hchild Hin]].
    rewrite Forall_forall in IH.
    cbn [Bs.descendants]. apply in_flat_map. exists child. split; [exact Hchild|].
    destruct (IH child Hchild _ Hin) as [->|Hd]; [now left|now right].
Qed.

Lemma select_descendants (sel0 : list Bs.compound) (soup m : node) :
  In m (Bs.select sel0 soup) -> In m (Bs.descendants soup).
Proof.
  destruct soup as [s|s|name attrs children]; try contradiction.
  unfold Bs.select. intros Hin.
  apply in_flat_map in Hin. destruct Hin as [child [Hchild Hin]].
  cbn [Bs.descendants]. apply in_flat_map. exists child. split; [exact Hchild|].
  destruct (select_at_descendants _ _ _ _ Hin) as [->|Hd]; [now left|now right].
Qed.

Lemma job_link_is_link (m : node) :
  Bs.matches_compound (sel "a" None job_href) m = true ->
  Bs.is_tag "a" m && has_href m = true.
Proof.
  unfold Bs.matches_compound, has_href. simpl.
  destruct (Bs.get "href" m); rewrite ?andb_false_r; [|discriminate].
  intros H. apply andb_true_iff in H. destruct H as [H _].
  apply andb_true_iff in H. destruct H as [-> _]. reflexivity.
Qed.

(** What the broadest selector finds, the fallback scan finds too. *)
Lemma broad_in_fallback (soup : node) (link : text) :
  In link (hrefs_selected [sel "a" None job_href] soup) ->
  In link (fallback_links soup).
Proof.
  intros Hin. pose proof (@hrefs_selected_job [] soup link Hin) as Hpre.
  unfold hrefs_selected in Hin. apply in_map_iff in Hin.
  destruct Hin as [m [<- Hm]].
  unfold fallback_links. apply filter_In. split.
  - apply in_map. unfold Bs.find_all. apply filter_In. split.
    + exact (select_descendants _ _ _ Hm).
    + apply job_link_is_link. eapply (@select_matches []); exact Hm.
  - now apply startswith_contains.
Qed.

(** X18. [get_job_links] returns no link exactly when no link of the page
    has "/job/" in its [href]: the selectors never miss a page that the
    fallback scan would have served. *)
Theorem get_job_links_nil_iff (soup : node) :
  get_job_links soup = [] <-> fallback_links soup = [].
Proof.
  unfold get_job_links, selectors. cbn [first_links]. split.
  - destruct (hrefs_selected _ soup); [|discriminate].
    destruct (hrefs_selected _ soup); [|discriminate].
    destruct (hrefs_selected _ soup); [trivial|discriminate].
  - intros Hf.
    assert (H3 : hrefs_selected [sel "a" None job_href] soup = []).
    { destruct (hrefs_selected [sel "a" None job_href] soup) as [|l r] eqn:H;
        [reflexivity|].
      pose proof (broad_in_fallback soup l) as Hin. rewrite H, Hf in Hin.
      destruct Hin. now left. }
    assert (Hsub : forall outer,
               hrefs_selected (outer ++ [sel "a" None job_href]) soup = []).
    { intros outer.
      destruct (hrefs_selected (outer ++ _) soup) as [|l r] eqn:H; [reflexivity|].
      assert (Hin : In l (hrefs_selected [sel "a" None job_href] soup)).
      { unfold hrefs_selected in *. apply (incl_map href_of (select_last outer _ soup)).
        rewrite H. now left. }
      rewrite H3 in Hin. destruct Hin. }
    pose proof (Hsub [sel "div" (Some ("mag-b" : text)) None; sel "h2" None None])
      as H1.
    pose proof (Hsub [sel "div" (Some ("job-listing" : text)) None; sel "h2" None None])
      as H2.
    cbn [app] in H1, H2. rewrite H1, H2, H3. exact Hf.
Qed.

(** ** Rows and contact *)

Lemma extract_job_data_contact (soup : node) (r : record) :
  extract_job_data soup = Returned (Some r) -> has_contact r.
Proof.
  intros H. pose proof (extract_job_data_cases soup) as Hc.
  destruct (application_contact soup) as [[email url]|e]; [|congruence].
  destruct email as [|c email]; destruct url as [|d url]; try congruence;
    destruct Hc as [r' [Hr' [_ [He Hu]]]];
    assert (r' = r) by congruence; subst r';
    eexists; eexists; (split; [exact He|split; [exact Hu|]]);
    solve [left; discriminate | right; discriminate].
Qed.

Lemma scraped_all (P : record -> Prop) (b : world) (links : list text) :
  (forall soup r, extract_job_data soup = Returned (Some r) -> P r) ->
  forall k, Forall P (records_of (scraped b k links)).
Proof.
  intros HP. induction links as [|link rest IH]; intros k; simpl; [constructor|].
  destruct (scrape_job b k (resolve link)) as [r|] eqn:Hs; simpl; [|apply IH].
  constructor; [|apply IH].
  unfold scrape_job, bind in Hs. destruct (load b k (resolve link)) as [soup|e];
    [|discriminate].
  destruct (extract_job_data soup) as [[r'|]|e] eqn:He; try discriminate.
  injection Hs as <-. exact (HP _ _ He).
Qed.

(** X19. Every row a run writes to the file has a way to apply: its
    application email or its application URL is not empty. *)
Theorem written_rows_have_contact (b : world) (fieldnames : list string)
        (rows : list record) :
  In (WriteCsv fieldnames rows) (fst (main b)) ->
  Forall has_contact rows.
Proof.
  intros Hin. destruct (main_write_event _ _ _ Hin) as [soup [_ [_ [-> _]]]].
  rewrite batch_spec. apply scraped_all. exact extract_job_data_contact.
Qed.

Example written_rows_have_contact_witness :
  Forall has_contact (batch (serve listing_mixed page_full) listing_mixed).
Proof.
  apply (@written_rows_have_contact (serve listing_mixed page_full) FIELDS).
  vm_compute. do 4 right. left. reflexivity.
Defined.

(** ** Title and company without the separator *)

Lemma contains_occurs (sub s : text) :
  Py.contains sub s = true -> exists j, occurs sub s j.
Proof.
  unfold Py.contains, occurs. destruct (Py.find sub s) as [i|] eqn:Hf; [|discriminate].
  intros _. exists i. exact (find_occurs _ _ Hf).
Qed.

Lemma occurs_bound (sub s : text) (j : nat) :
  sub <> [] -> occurs sub s j -> j + length sub <= length s.
Proof.
  unfold occurs. intros Hne H. apply startswith_app in H. destruct H as [r Hr].
  apply (f_equal (@length ascii)) in Hr.
  rewrite length_skipn, length_app in Hr.
  destruct sub; [contradiction|]. simpl in *. lia.
Qed.

Lemma occurs_app_l (sub x y : text) (j : nat) :
  sub <> [] -> occurs sub x j -> occurs sub (x ++ y) j.
Proof.
  intros Hne H. pose proof (@occurs_bound sub x j Hne H) as Hb.
  unfold occurs in *. apply startswith_app in H. destruct H as [r Hr].
  apply startswith_app. exists (r ++ y).
  rewrite skipn_app, Hr, app_assoc.
  replace (j - length x) with 0 by lia. reflexivity.
Qed.

Lemma occurs_app_r (sub x y : text) (j : nat) :
  occurs sub y j -> occurs sub (x ++ y) (length x + j).
Proof.
  unfold occurs. intros H.
  rewrite skipn_app, skipn_all2 by lia.
  replace (length x + j - length x) with j by lia. exact H.
Qed.

Lemma occurs_strip (sub p : text) (j : nat) :
  sub <> [] -> occurs sub (Py.strip p) j -> exists j', occurs sub p j'.
Proof.
  intros Hne H. unfold Py.strip in H.
  destruct (lstrip_suffix p) as [ws1 [H1 _]].
  destruct (rstrip_prefix (Py.lstrip p)) as [ws2 H2].
  exists (length ws1 + j). rewrite H1. apply occurs_app_r.
  rewrite H2. now apply (@occurs_app_l sub).
Qed.

(** The part before the first occurrence of a separator, stripped or not,
    does not contain the separator. *)
Lemma cut_without_separator (sub s : text) :
  sub <> [] ->
  Py.contains sub
    (Py.strip match Py.find sub s with Some i => firstn i s | None => s end)
  = false.
Proof.
  intros Hne.
  destruct (Py.contains sub (Py.strip _)) eqn:Hc; [exfalso|reflexivity].
  apply contains_occurs in Hc. destruct Hc as [j Hj].
  apply (@occurs_strip sub _ j Hne) in Hj. destruct Hj as [j' Hj'].
  destruct (Py.find sub s) as [i|] eqn:Hf.
  - pose proof (@occurs_bound sub _ j' Hne Hj') as Hb. rewrite length_firstn in Hb.
    apply (@occurs_app_l sub _ (skipn i s) j' Hne) in Hj'. rewrite firstn_skipn in Hj'.
    destruct (find_Some _ _ Hf) as [_ Hleft].
    assert (Hlt : j' < i) by (destruct sub; [contradiction|simpl in Hb; lia]).
    unfold occurs in Hj'. rewrite (Hleft j' Hlt) in Hj'. discriminate.
  - unfold occurs in Hj'. rewrite (find_None _ _ Hf j') in Hj'. discriminate.
Qed.

(** X20. Neither the title nor the company of a page contains " at ":
    whatever the heading, the cuts leave no separator inside them. *)
Theorem title_company_no_separator (soup : node) :
  Py.contains AT (fst (title_company soup)) = false
  /\ Py.contains AT (snd (title_company soup)) = false.
Proof.
  unfold title_company.
  destruct (Bs.find (Bs.is_tag "h1") soup) as [h1|]; [|now split].
  cbv zeta. cbn [fst snd]. change (list_ascii_of_string " at ") with AT.
  set (heading := Bs.get_text " " (fst h1)).
  assert (Hsep : AT <> []) by discriminate.
  pose proof (split_first_parts heading Hsep) as Hsplit.
  pose proof (@cut_without_separator AT heading Hsep) as Htitle.
  destruct (Py.find AT heading) as [i|] eqn:Hf.
  - cbv zeta in Hsplit. destruct Hsplit as [more ->].
    split; [exact Htitle|]. cbn [nth length Nat.ltb Nat.leb].
    apply (@cut_without_separator AT (skipn (i + length AT) heading) Hsep).
  - rewrite Hsplit. split; [exact Htitle|reflexivity].
Qed.
